(** * TelegramTokenAddressForwarder: a shallow embedding of telegramForwarder.py

    The development follows the source file:
    - [PyStr]: Python [str] values as sequences of Unicode code points;
    - [Re]: the fragment of Python's [re] engine that the token pattern
      [\b[a-zA-Z0-9]{43,44}\b] exercises (word boundaries, a greedy bounded
      repetition of a character set, leftmost search with backtracking);
    - [Token]: the vocabulary of the specification for runs of characters;
    - [Py]: JSON values, the config file, exceptions, and the state and
      exception monad the methods run in;
    - [Forwarder]: [TelegramForwarder.get_chat_name] and the
      [new_message_handler] callback, over the object's cache and the trace
      of requests made to the Telegram client;
    - [Config]: the four methods of [ConfigManager];
    - [Examples]: concrete inputs;
    - [FileStates]: the states of the config file that decide what is saved;
    - [Session]: [ensure_connected], [list_chats] and
      [setup_message_handlers] up to its wait loop, over the connection
      requests, the console and the files written; what happens during the
      wait (the client library calling back, the signal handler) is left
      open;
    - [Menu]: the two halves of [main], the credentials and the menu;
    then the properties of each part.  *)

From Stdlib Require Import ZArith NArith Strings.String Strings.Ascii DecimalString.
From Stdlib Require DecimalPos DecimalZ.
From stdpp Require Import gmap strings list fin_maps.

Set Warnings "-register-all".

(** ** Python strings *)

Module PyStr.

(** A [str] is a sequence of code points. *)
Abbreviation pystr := (list N).

(** A literal of the source, written as a Rocq string. *)
Definition str (s : string) : pystr := N_of_ascii <$> list_ascii_of_string s.

#[global] Arguments str : simpl never.

(** [str(n)] of an [int]: decimal digits, with a leading minus sign. *)
Definition str_of_int (z : Z) : pystr := str (NilZero.string_of_int (Z.to_int z)).

(** Truth value of [event.message.text]: [None] and [''] are falsy. *)
Definition truthy (t : option pystr) : bool :=
  match t with
  | Some (_ :: _) => true
  | _ => false
  end.

End PyStr.
Export PyStr.

(** ** The regular-expression engine, as far as the token pattern needs it *)

Module Re.

Definition in_range (lo hi c : N) : bool := ((lo <=? c) && (c <=? hi))%N.

(** The set [[a-zA-Z0-9]]. *)
Definition ascii_alnum (c : N) : bool :=
  in_range 97 122 c || in_range 65 90 c || in_range 48 57 c.

(** [\w] of a [str] pattern: alphanumeric (in the sense of [str.isalnum]) or
    the underscore.  Below 128 [str.isalnum] is [[a-zA-Z0-9]]; above, it is
    read from the interpreter's Unicode database, which is a parameter
    [uni_alnum] here. *)
Definition is_word (uni_alnum : N → bool) (c : N) : bool :=
  if (c <? 128)%N then ascii_alnum c || (c =? 95)%N else uni_alnum c.

(** The operators of a compiled pattern that occur in the source. *)
Inductive re_node :=
  | AT_BOUNDARY                                   (* \b *)
  | MAX_REPEAT (lo hi : nat) (set : N → bool).    (* [set]{lo,hi}, greedy *)

Abbreviation pattern := (list re_node).

(** The match object: where the match starts and the text it covers. *)
Record Match := { m_start : nat; m_group : pystr }.

Definition group (m : Match) : pystr := m_group m.

Section Engine.
Variable uni_alnum : N → bool.

Definition word_opt (c : option N) : bool :=
  match c with
  | Some c => is_word uni_alnum c
  | None => false
  end.

(** [\b] between the character before the position ([prev], absent at the
    start of the string) and the character at it (absent at the end). *)
Definition at_boundary (prev : option N) (s : pystr) : bool :=
  xorb (word_opt prev) (word_opt (head s)).

(** Number of leading characters of [s] that are in [set], at most [hi]. *)
Fixpoint count_set (set : N → bool) (hi : nat) (s : pystr) : nat :=
  match hi, s with
  | S hi', c :: s' => if set c then S (count_set set hi' s') else 0
  | _, _ => 0
  end.

(** The character before offset [k] of [s], [prev] when [k] is 0. *)
Definition prev_at (prev : option N) (s : pystr) (k : nat) : option N :=
  match k with
  | 0 => prev
  | S k' => s !! k'
  end.

(** Greedy repetition: try the continuation after [k] characters, then
    after [k-1], ..., down to [lo]; the first success wins. *)
Fixpoint backtrack (cont : nat → option nat) (lo k : nat) : option nat :=
  if k <? lo then None
  else match cont k with
       | Some n => Some (k + n)
       | None => match k with
                 | 0 => None
                 | S k' => backtrack cont lo k'
                 end
       end.

(** Match [p] at a position; the result is the length of the match. *)
Fixpoint re_match (p : pattern) (prev : option N) (s : pystr) : option nat :=
  match p with
  | [] => Some 0
  | AT_BOUNDARY :: p' =>
      if at_boundary prev s then re_match p' prev s else None
  | MAX_REPEAT lo hi set :: p' =>
      backtrack (λ k, re_match p' (prev_at prev s k) (drop k s))
                lo (count_set set hi s)
  end.

(** [re.search]: the first position, from the left, at which [p] matches. *)
Fixpoint search_from (p : pattern) (pos : nat) (prev : option N) (s : pystr)
  : option Match :=
  match re_match p prev s with
  | Some n => Some {| m_start := pos; m_group := take n s |}
  | None => match s with
            | [] => None
            | c :: s' => search_from p (S pos) (Some c) s'
            end
  end.

Definition re_search (p : pattern) (text : pystr) : option Match :=
  search_from p 0 None text.

(** [r'\b[a-zA-Z0-9]{43,44}\b'] *)
Definition TOKEN_RE : pattern :=
  [AT_BOUNDARY; MAX_REPEAT 43 44 ascii_alnum; AT_BOUNDARY].

End Engine.

End Re.
Export Re.

(** ** What the spec calls a qualifying run *)

Module Token.

Section Runs.
Variable uni_alnum : N → bool.

(** [text[i:i+n]] *)
Definition slice (text : pystr) (i n : nat) : pystr := take n (drop i text).

(** The character before offset [i], absent at the start of the text. *)
Definition char_before (text : pystr) (i : nat) : option N :=
  prev_at None text i.

Definition alnum_opt (c : option N) : bool :=
  match c with
  | Some c => ascii_alnum c
  | None => false
  end.

(** [n] characters from offset [i], all of them in [[a-zA-Z0-9]]. *)
Definition alnum_run (text : pystr) (i n : nat) : bool :=
  (i + n <=? length text) && forallb ascii_alnum (slice text i n).

(** Both ends of [text[i:i+n]] lie on a word boundary: the neighbour on
    either side is a non-word character or the end of the string. *)
Definition word_delimited (text : pystr) (i n : nat) : bool :=
  negb (word_opt uni_alnum (char_before text i))
  && negb (word_opt uni_alnum (text !! (i + n))).

(** A word-boundary-delimited run of exactly 43 or 44 alphanumerics. *)
Definition qualifying (text : pystr) (i n : nat) : bool :=
  ((n =? 43) || (n =? 44)) && alnum_run text i n && word_delimited text i n.

(** The leftmost qualifying run. *)
Definition first_qualifying (text : pystr) (i n : nat) : Prop :=
  qualifying text i n = true
  ∧ ∀ j m, qualifying text j m = true → i ≤ j.

(** A maximal run of [[a-zA-Z0-9]]: it cannot be extended on either side. *)
Definition maximal_alnum_run (text : pystr) (i n : nat) : bool :=
  (0 <? n) && alnum_run text i n
  && negb (alnum_opt (char_before text i))
  && negb (alnum_opt (text !! (i + n))).

(** The span of a match and a run share a position. *)
Definition overlaps (m : Match) (i n : nat) : Prop :=
  ∃ k, m_start m ≤ k < m_start m + length (m_group m) ∧ i ≤ k < i + n.

End Runs.

End Token.
Export Token.


(** ** Values, the config file and the process state *)

Module Py.

(** The values [json.load] produces and [json.dump] accepts; [JNull] is
    Python's [None], a [JObj] is a [dict] with [str] keys.  Numbers are the
    integers the program stores. *)
Inductive json :=
  | JNull
  | JBool (b : bool)
  | JInt (z : Z)
  | JStr (s : pystr)
  | JList (l : list json)
  | JObj (m : gmap pystr json).

(** What the config file holds: text that [json.load] decodes to the value
    [j] (what [json.dump] of [j] wrote, or an equivalent hand edit), or text
    that [json.load] rejects. *)
Inductive content :=
  | Document (j : json)
  | Garbled (raw : pystr).

(** What the permissions of the file allow the process: to change them
    (it owns the file), to read it, to write it. *)
Record perms := { owned : bool; readable : bool; writable : bool }.

Inductive file :=
  | NoFile
  | File (p : perms) (c : content).

(** Instances of [Exception], with the text [str(e)] gives. *)
Inductive exn_class :=
  | KeyError | TypeError | AttributeError | OSError | JSONDecodeError | RPCError.

Record exn := Exn { exn_cls : exn_class; exn_msg : pystr }.

(** A chat entity of the client library; only channels and groups carry a
    [title] attribute. *)
Record entity := { title : option pystr }.

(** The calls made to the Telegram client, oldest first. *)
Inductive call :=
  | GetEntity (chat_id : Z)
  | SendMessage (chat_id : Z) (text : pystr).

Inductive level := INFO | ERROR.

Record world := World {
  source_entities : gmap Z entity;      (* self.source_entities *)
  calls : list call;                    (* requests sent through self.client *)
  config_file : file;                   (* telegram_config.json *)
  cwd_writable : bool;                  (* whether the process may create files in
                                           its working directory *)
  log : list (level * pystr);           (* what the logger has emitted *)
}.

Inductive result (A : Type) :=
  | Return (a : A)
  | Raise (e : exn).
Arguments Return {A} a.
Arguments Raise {A} e.

(** Computations: they read and update the world, and return or raise. *)
Definition M (A : Type) : Type := world → result A * world.

#[global] Instance M_ret : MRet M := λ A a w, (Return a, w).

#[global] Instance M_bind : MBind M := λ A B f m w,
  match m w with
  | (Return a, w') => f a w'
  | (Raise e, w') => (Raise e, w')
  end.

Definition raise {A} (e : exn) : M A := λ w, (Raise e, w).

(** [try: body / except Exception as e: handler e] *)
Definition try_except {A} (body : M A) (handler : exn → M A) : M A := λ w,
  match body w with
  | (Return a, w') => (Return a, w')
  | (Raise e, w') => handler e w'
  end.

(** The value (or exception) and the final state of a computation. *)
Definition outcome {A} (m : M A) (w : world) : result A := (m w).1.
Definition run {A} (m : M A) (w : world) : world := (m w).2.

Definition gets {A} (f : world → A) : M A := λ w, (Return (f w), w).
Definition modify (f : world → world) : M unit := λ w, (Return (), f w).

Definition set_source_entities (f : gmap Z entity → gmap Z entity) (w : world) : world :=
  World (f (source_entities w)) (calls w) (config_file w) (cwd_writable w) (log w).
Definition add_call (c : call) (w : world) : world :=
  World (source_entities w) (calls w ++ [c]) (config_file w) (cwd_writable w) (log w).
Definition set_config_file (f : file) (w : world) : world :=
  World (source_entities w) (calls w) f (cwd_writable w) (log w).
Definition add_log (l : level) (msg : pystr) (w : world) : world :=
  World (source_entities w) (calls w) (config_file w) (cwd_writable w)
    (log w ++ [(l, msg)]).

Definition logger_info (msg : pystr) : M unit := modify (add_log INFO msg).
Definition logger_error (msg : pystr) : M unit := modify (add_log ERROR msg).

(** The sends and the lookups requested, among a list of calls. *)
Definition sends (cs : list call) : list (Z * pystr) :=
  omap (λ c, match c with SendMessage d t => Some (d, t) | _ => None end) cs.
Definition lookups (cs : list call) : list Z :=
  omap (λ c, match c with GetEntity i => Some i | _ => None end) cs.

End Py.
Export Py.

(** ** TelegramForwarder *)

Module Forwarder.

(** The external client: what a request answers may depend on the requests
    made before it. *)
Record TelegramClient := {
  get_entity : list call → Z → result entity;
  send_message : list call → Z → pystr → result unit;
}.

Record Event := { chat_id : Z; message_text : option pystr }.

Section Forwarder.
Variable uni_alnum : N → bool.
Variable client : TelegramClient.

(** [await self.client.get_entity(chat_id)] *)
Definition client_get_entity (chat_id : Z) : M entity := λ w,
  (get_entity client (calls w) chat_id, add_call (GetEntity chat_id) w).

(** [await self.client.send_message(chat_id, text)] *)
Definition client_send_message (chat_id : Z) (text : pystr) : M unit := λ w,
  (send_message client (calls w) chat_id text, add_call (SendMessage chat_id text) w).

(** [f"Chat {chat_id}"] *)
Definition chat_label (chat_id : Z) : pystr := str "Chat " ++ str_of_int chat_id.

(** [self.source_entities[chat_id]] *)
Definition cached_entity (chat_id : Z) : M entity :=
  cache ← gets source_entities;
  match cache !! chat_id with
  | Some e => mret e
  | None => raise (Exn KeyError (str_of_int chat_id))
  end.

(** The [try] statement of [get_chat_name]; [Some name] is the [return]
    inside its [except] clause. *)
Definition get_chat_name_fetch (chat_id : Z) : M (option pystr) :=
  try_except
    (entity ← client_get_entity chat_id;
     modify (set_source_entities <[chat_id := entity]>);;
     mret None)
    (λ e,
       logger_error (str "Error getting entity " ++ str_of_int chat_id
                     ++ str ": " ++ exn_msg e);;
       mret (Some (chat_label chat_id))).

(** [entity.title if hasattr(entity, 'title') else f"Chat {chat_id}"] *)
Definition display_name (e : entity) (chat_id : Z) : pystr :=
  match title e with
  | Some t => t
  | None => chat_label chat_id
  end.

Definition get_chat_name (chat_id : Z) : M pystr :=
  cache ← gets source_entities;
  early ← (if bool_decide (chat_id ∉ dom cache)
           then get_chat_name_fetch chat_id
           else mret None);
  match early with
  | Some name => mret name
  | None =>
      entity ← cached_entity chat_id;
      mret (display_name entity chat_id)
  end.

(** The loop of [setup_message_handlers] that fills [source_names]. *)
Fixpoint resolve_sources (source_chat_ids : list Z) (source_names : gmap Z pystr)
  : M (gmap Z pystr) :=
  match source_chat_ids with
  | [] => mret source_names
  | chat_id :: rest =>
      name ← get_chat_name chat_id;
      logger_info (str "Monitoring source: " ++ name ++ str " (ID: "
                   ++ str_of_int chat_id ++ str ")");;
      resolve_sources rest (<[chat_id := name]> source_names)
  end.

Section Handler.
(** What the closure captures. *)
Variable source_names : gmap Z pystr.
Variable dest_name : pystr.
Variable destination_chat_id : Z.

(** The body of the callback's [try] statement. *)
Definition new_message_handler_try (event : Event) : M unit :=
  let source_id := chat_id event in
  fallback ← get_chat_name source_id;
  let source_name := default fallback (source_names !! source_id) in
  if truthy (message_text event) then
    match re_search uni_alnum TOKEN_RE (default [] (message_text event)) with
    | Some m =>
        let token := group m in
        logger_info (str "Found token: " ++ token ++ str " in " ++ source_name);;
        let forward_msg := token in
        client_send_message destination_chat_id forward_msg;;
        logger_info (str "Successfully forwarded token from " ++ source_name
                     ++ str " to " ++ dest_name)
    | None => mret ()
    end
  else mret ().

Definition new_message_handler (event : Event) : M unit :=
  try_except (new_message_handler_try event)
    (λ e, logger_error (str "Error processing message: " ++ exn_msg e)).

(** The token the callback looks for in an event, if any. *)
Definition token_of (event : Event) : option pystr :=
  if truthy (message_text event)
  then group <$> re_search uni_alnum TOKEN_RE (default [] (message_text event))
  else None.

(** The send the callback asks for on an event. *)
Definition forwards (event : Event) : list (Z * pystr) :=
  match token_of event with
  | Some token => [(destination_chat_id, token)]
  | None => []
  end.
End Handler.

(** [setup_message_handlers] after the connection check: resolve the
    names, build the callback. *)
Definition setup_message_handlers (source_chat_ids : list Z) (destination_chat_id : Z)
  : M (Event → M unit) :=
  source_names ← resolve_sources source_chat_ids ∅;
  dest_name ← get_chat_name destination_chat_id;
  logger_info (str "Forwarding to destination: " ++ dest_name ++ str " (ID: "
               ++ str_of_int destination_chat_id ++ str ")");;
  mret (new_message_handler source_names dest_name destination_chat_id).

(** A driver for the callback, not code of the forwarder: it is the client
    library that decides when the callback registered with
    [events.NewMessage(chats=source_chat_ids)] runs.  Here it runs on the
    messages whose chat is one of the subscribed IDs, one message after the
    other; an exception leaving the callback would end the delivery. *)
Fixpoint deliver (source_chat_ids : list Z) (handler : Event → M unit)
    (events : list Event) : M unit :=
  match events with
  | [] => mret ()
  | event :: rest =>
      (if bool_decide (chat_id event ∈ source_chat_ids)
       then handler event else mret ());;
      deliver source_chat_ids handler rest
  end.

End Forwarder.

End Forwarder.
Export Forwarder.
(** ** ConfigManager *)

Module Config.

(** [self.config_file]: [main] builds the manager with the default name, a
    path relative to the working directory. *)
Definition config_path : pystr := str "telegram_config.json".

(** The [OSError] of a failed system call on a file: [str(e)] is
    [[Errno n] text: name], [name] being the [repr] of the path. *)
Definition os_error (errno : Z) (strerror name : pystr) : exn :=
  Exn OSError (str "[Errno " ++ str_of_int errno ++ str "] " ++ strerror
               ++ str ": " ++ name).

(** [repr(self.config_file)] *)
Definition config_name : pystr := str "'" ++ config_path ++ str "'".

Definition permission_denied (name : pystr) : exn :=
  os_error 13 (str "Permission denied") name.
Definition not_permitted (name : pystr) : exn :=
  os_error 1 (str "Operation not permitted") name.
Definition no_such_file (name : pystr) : exn :=
  os_error 2 (str "No such file or directory") name.

(** [type(value).__name__] *)
Definition type_name (value : json) : pystr :=
  match value with
  | JNull => str "NoneType"
  | JBool _ => str "bool"
  | JInt _ => str "int"
  | JStr _ => str "str"
  | JList _ => str "list"
  | JObj _ => str "dict"
  end.

(** [os.path.exists(self.config_file)] *)
Definition path_exists : M bool :=
  gets (λ w, match config_file w with NoFile => false | File _ _ => true end).

(** [open(self.config_file, "r")] and reading the text *)
Definition open_read : M content := λ w,
  match config_file w with
  | File p c =>
      if readable p then (Return c, w)
      else (Raise (permission_denied config_name), w)
  | NoFile => (Raise (no_such_file config_name), w)
  end.

(** [json.load(file)]; of the text of the exception, which goes on to say
    where decoding stopped, only the first words are kept. *)
Definition json_load (c : content) : M json :=
  match c with
  | Document j => mret j
  | Garbled _ => raise (Exn JSONDecodeError (str "Expecting value"))
  end.

(** [config.get(key)]: the value, [None] without the key; only a [dict]
    has the method. *)
Definition config_get (config : json) (key : pystr) : M json :=
  match config with
  | JObj m => mret (default JNull (m !! key))
  | _ => raise (Exn AttributeError (str "'" ++ type_name config
                                    ++ str "' object has no attribute 'get'"))
  end.

(** [config[key] = value] with a [str] key *)
Definition config_setitem (config : json) (key : pystr) (value : json) : M json :=
  match config with
  | JObj m => mret (JObj (<[key := value]> m))
  | JList _ => raise (Exn TypeError
                        (str "list indices must be integers or slices, not str"))
  | _ => raise (Exn TypeError (str "'" ++ type_name config
                               ++ str "' object does not support item assignment"))
  end.

(** A file the process has just created: its own, readable and writable
    (the usual creation mask leaves the owner these rights). *)
Definition fresh_perms : perms := {| owned := true; readable := true; writable := true |}.

(** [with open(self.config_file, "w") as file: json.dump(config, file, indent=2)]
    Opening replaces an existing file when the process may write it, and
    creates a missing one when the process may create files in the
    directory; otherwise [open] raises and nothing is written.  The two
    lines are one step here: a dump that fails after [open] has emptied the
    file (an I/O error) is not modelled. *)
Definition write_json (config : json) : M unit := λ w,
  match config_file w with
  | NoFile =>
      if cwd_writable w
      then (Return (), set_config_file (File fresh_perms (Document config)) w)
      else (Raise (permission_denied config_name), w)
  | File p _ =>
      if writable p then (Return (), set_config_file (File p (Document config)) w)
      else (Raise (permission_denied config_name), w)
  end.

(** [os.chmod(self.config_file, 0o600)] *)
Definition chmod_600 : M unit := λ w,
  match config_file w with
  | File p c =>
      if owned p
      then (Return (),
            set_config_file (File {| owned := true; readable := true; writable := true |} c) w)
      else (Raise (not_permitted config_name), w)
  | NoFile => (Raise (no_such_file config_name), w)
  end.

Definition k_api_id : pystr := str "api_id".
Definition k_api_hash : pystr := str "api_hash".
Definition k_phone_number : pystr := str "phone_number".
Definition k_source_chat_ids : pystr := str "source_chat_ids".
Definition k_destination_chat_id : pystr := str "destination_chat_id".
Definition k_last_updated : pystr := str "last_updated".

Definition load_credentials_try : M (json * json * json) :=
  ex ← path_exists;
  if (ex : bool) then
    text ← open_read;
    config ← json_load text;
    api_id ← config_get config k_api_id;
    api_hash ← config_get config k_api_hash;
    phone_number ← config_get config k_phone_number;
    mret (api_id, api_hash, phone_number)
  else mret (JNull, JNull, JNull).

Definition load_credentials : M (json * json * json) :=
  try_except load_credentials_try
    (λ e,
       logger_error (str "Error loading credentials: " ++ exn_msg e);;
       mret (JNull, JNull, JNull)).

Section Platform.
(** [os.name] *)
Variable os_name : pystr.

(** The dict literal of [save_credentials]. *)
Definition credentials (api_id api_hash phone_number : pystr) : gmap pystr json :=
  <[k_api_id := JStr api_id]>
    (<[k_api_hash := JStr api_hash]>
       (<[k_phone_number := JStr phone_number]> ∅)).

Definition save_credentials_try (api_id api_hash phone_number : pystr) : M unit :=
  let config := JObj (credentials api_id api_hash phone_number) in
  write_json config;;
  if bool_decide (os_name ≠ str "nt") then chmod_600 else mret tt.

Definition save_credentials (api_id api_hash phone_number : pystr) : M unit :=
  try_except (save_credentials_try api_id api_hash phone_number)
    (λ e, logger_error (str "Error saving credentials: " ++ exn_msg e)).
End Platform.

(** [now] is what [datetime.now().isoformat()] returns during the call. *)
Definition save_chat_config_try (now : pystr) (source_chat_ids : list Z)
  (destination_chat_id : Z) : M unit :=
ex ← path_exists;
config ← (if (ex : bool) then text ← open_read; json_load text
          else mret (JObj ∅));
config ← config_setitem config k_source_chat_ids (JList (JInt <$> source_chat_ids));
config ← config_setitem config k_destination_chat_id (JInt destination_chat_id);
config ← config_setitem config k_last_updated (JStr now);
write_json config.

Definition save_chat_config (now : pystr) (source_chat_ids : list Z)
  (destination_chat_id : Z) : M unit :=
try_except (save_chat_config_try now source_chat_ids destination_chat_id)
  (λ e, logger_error (str "Error saving chat config: " ++ exn_msg e)).

Definition load_chat_config_try : M (json * json) :=
ex ← path_exists;
if (ex : bool) then
  text ← open_read;
  config ← json_load text;
  source_chat_ids ← config_get config k_source_chat_ids;
  destination_chat_id ← config_get config k_destination_chat_id;
  mret (source_chat_ids, destination_chat_id)
else mret (JNull, JNull).

Definition load_chat_config : M (json * json) :=
try_except load_chat_config_try
  (λ e,
     logger_error (str "Error loading chat config: " ++ exn_msg e);;
     mret (JNull, JNull)).

(** The value under [key] of a config file that holds an object. *)
Definition field (f : file) (key : pystr) : option json :=
match f with
| File _ (Document (JObj m)) => m !! key
| _ => None
end.

(** What [config.get(key)] reads from the file: [None] without the key. *)
Definition stored (f : file) (key : pystr) : json := default JNull (field f key).

(** The file holds an object (the shape the program writes). *)
Definition holds_object (f : file) : bool :=
match f with
| File _ (Document (JObj _)) => true
| _ => false
end.

Definition can_read (f : file) : bool :=
match f with
| File p _ => readable p
| NoFile => false
end.

(** [open(self.config_file, "w")] succeeds: the process may write the file,
    or may create it when there is none. *)
Definition can_write (w : world) : bool :=
match config_file w with
| File p _ => writable p
| NoFile => cwd_writable w
end.

(** The ways reading the file as a config object goes wrong. *)
Inductive read_error : file → Prop :=
  | read_denied p c : readable p = false → read_error (File p c)
  | read_garbled p raw : read_error (File p (Garbled raw))
  | read_not_object p j : (∀ m, j ≠ JObj m) → read_error (File p (Document j)).

(** The object [save_chat_config] writes over the one it read. *)
Definition merged (now : pystr) (ids : list Z) (dest : Z) (m : gmap pystr json)
  : gmap pystr json :=
  <[k_last_updated := JStr now]>
    (<[k_destination_chat_id := JInt dest]>
       (<[k_source_chat_ids := JList (JInt <$> ids)]> m)).

End Config.
Export Config.

(** ** Concrete inputs used by the examples below *)

Module Examples.

(** A Unicode table without alphanumerics above 127 (as under [re.ASCII]). *)
Definition ascii_only : N → bool := λ _, false.

Definition token43 : pystr := str "aB3xY9kLp2Qw8Rt5Zv1Nc7Mf4Hj6Gd0Ss3Ee9Tt1YyZ".
Definition token44 : pystr := str "So11111111111111111111111111111111111111112x".

Definition prose43 : pystr := str "check out " ++ token43 ++ str " pls".
Definition two_tokens : pystr := token44 ++ str ", then " ++ token43.
Definition underscored : pystr := str "ca_" ++ token43.
Definition hyphenated : pystr := str "ca-" ++ token43.
Definition run42 : pystr := str "aB3xY9kLp2Qw8Rt5Zv1Nc7Mf4Hj6Gd0Ss3Ee9Tt1Yy".
Definition mixed_text : pystr := str "id " ++ run42 ++ str " key " ++ token43.

Definition scenario_text : pystr :=
  str "check out aB3xY9kLp2Qw8Rt5Zv1Nc7Mf4Hj6Gd0Ss3Ee9Tt1Yy pls".

(** No config file yet, in a directory the process may write. *)
Definition world0 : world := World ∅ [] NoFile true [].

Definition news : entity := {| title := Some (str "News") |}.

(** A client that answers every request. *)
Definition steady_client : TelegramClient :=
  {| get_entity := λ _ _, Return news;
     send_message := λ _ _ _, Return () |}.

(** A client whose first request times out. *)
Definition flaky_client : TelegramClient :=
  {| get_entity := λ history _,
       match history with
       | [] => Raise (Exn RPCError (str "timeout"))
       | _ => Return news
       end;
     send_message := λ history _ _,
       match history with
       | [] => Raise (Exn RPCError (str "timeout"))
       | _ => Return ()
       end |}.

(** A client that refuses to send. *)
Definition muted_client : TelegramClient :=
  {| get_entity := λ _ _, Return news;
     send_message := λ _ _ _, Raise (Exn RPCError (str "CHAT_WRITE_FORBIDDEN")) |}.

(** The config file of the spec's scenario. *)
Definition credentials_only : gmap pystr json :=
  <[k_api_id := JStr (str "1")]>
    (<[k_api_hash := JStr (str "h")]>
       (<[k_phone_number := JStr (str "+100")]> ∅)).

Definition chats_only : gmap pystr json :=
  <[k_source_chat_ids := JList [JInt 11; JInt 22]]>
    (<[k_destination_chat_id := JInt 99]>
       (<[k_last_updated := JStr (str "2024-05-01T10:00:00")]> ∅)).

Definition on_disk (c : content) : world := World ∅ [] (File fresh_perms c) true [].

Definition garbled : world := on_disk (Garbled (str "{not json")).
Definition stamp : pystr := str "2024-06-01T12:00:00".

Definition locked : perms := {| owned := false; readable := false; writable := false |}.

Definition event_of (chat : Z) (text : pystr) : Event :=
  {| chat_id := chat; message_text := Some text |}.

End Examples.
Export Examples.

(** ** States of the config file that decide what the savers do *)

Module FileStates.

Definition is_owned (f : file) : bool :=
  match f with
  | File p _ => owned p
  | NoFile => false
  end.

Definition holds_file (f : file) : bool :=
  match f with
  | File _ _ => true
  | NoFile => false
  end.

(** The states in which [save_chat_config] gets as far as opening the file
    for writing, and succeeds if there is a file: no file yet, or an object
    in a file the process may read and write. *)
Definition chat_config_savable (f : file) : bool :=
  match f with
  | NoFile => true
  | File p (Document (JObj _)) => readable p && writable p
  | File _ _ => false
  end.

(** The object [save_chat_config] starts from: the one in the file, the empty
    one without a file. *)
Definition object_of (f : file) : gmap pystr json :=
  match f with
  | File _ (Document (JObj m)) => m
  | _ => ∅
  end.

(** The permissions of the file, those of a new file without one. *)
Definition perms_of (f : file) : perms :=
  match f with
  | File p _ => p
  | NoFile => fresh_perms
  end.

End FileStates.
Export FileStates.

(** ** Connecting, listing the chats, and the menu *)

Module Session.

(** A dialog as [list_chats] prints it: [dialog.id], [dialog.title], and the
    class name of [dialog.entity]. *)
Record dialog := { dialog_id : Z; dialog_title : pystr; dialog_type : pystr }.

(** The requests of the connection, oldest first. *)
Inductive request :=
  | Connect
  | IsUserAuthorized
  | SendCodeRequest (phone : pystr)
  | SignIn (phone code : pystr)
  | SignInPassword (password : pystr)
  | GetDialogs
  | Disconnect.

(** The exceptions these functions tell apart, each an [Exception]. *)
Inductive failure :=
  | FloodWaitError (seconds : Z) (msg : pystr)
  | SessionPasswordNeededError (msg : pystr)
  | EOFError
  | ValueError (msg : pystr)
  | Error (e : exn).

(** [str(e)] *)
Definition failure_msg (e : failure) : pystr :=
  match e with
  | FloodWaitError _ msg => msg
  | SessionPasswordNeededError msg => msg
  | EOFError => str "EOF when reading a line"
  | ValueError msg => msg
  | Error e => exn_msg e
  end.

Inductive answer (A : Type) :=
  | Done (a : A)
  | Fail (e : failure).
Arguments Done {A} a.
Arguments Fail {A} e.

Record process := Process {
  base : world;                   (* the forwarder's cache and requests, the config file, the log *)
  requests : list request;        (* connection requests made through self.client *)
  stdin : list pystr;             (* the lines the user will type, next first *)
  stdout : list pystr;            (* prompts and menu lines printed *)
  sleeps : list Z;                (* the arguments of asyncio.sleep, in order *)
  files : gmap pystr pystr;       (* the chat listings written: name and text *)
}.

Definition P (A : Type) : Type := process → answer A * process.

#[global] Instance P_ret : MRet P := λ A a p, (Done a, p).

#[global] Instance P_bind : MBind P := λ A B f m p,
  match m p with
  | (Done a, p') => f a p'
  | (Fail e, p') => (Fail e, p')
  end.

Definition fail {A} (e : failure) : P A := λ p, (Fail e, p).

(** [try: body / except Exception as e: handler e] *)
Definition catch_all {A} (body : P A) (handler : failure → P A) : P A := λ p,
  match body p with
  | (Done a, p') => (Done a, p')
  | (Fail e, p') => handler e p'
  end.

(** [try: body / except errors.SessionPasswordNeededError: handler] *)
Definition catch_password_needed {A} (body handler : P A) : P A := λ p,
  match body p with
  | (Fail (SessionPasswordNeededError _), p') => handler p'
  | other => other
  end.

(** [try: body / finally: cleanup] *)
Definition finally {A} (body : P A) (cleanup : P unit) : P A := λ p,
  match body p with
  | (r, p') =>
      match cleanup p' with
      | (Done _, p'') => (r, p'')
      | (Fail e, p'') => (Fail e, p'')
      end
  end.

Definition with_base (w : world) (p : process) : process :=
  Process w (requests p) (stdin p) (stdout p) (sleeps p) (files p).
Definition add_request (r : request) (p : process) : process :=
  Process (base p) (requests p ++ [r]) (stdin p) (stdout p) (sleeps p) (files p).
Definition with_stdin (lines : list pystr) (p : process) : process :=
  Process (base p) (requests p) lines (stdout p) (sleeps p) (files p).
Definition add_stdout (line : pystr) (p : process) : process :=
  Process (base p) (requests p) (stdin p) (stdout p ++ [line]) (sleeps p) (files p).
Definition add_sleep (seconds : Z) (p : process) : process :=
  Process (base p) (requests p) (stdin p) (stdout p) (sleeps p ++ [seconds]) (files p).
Definition with_files (fs : gmap pystr pystr) (p : process) : process :=
  Process (base p) (requests p) (stdin p) (stdout p) (sleeps p) fs.

(** A computation on the forwarder and the config file, run in the process. *)
Definition lift {A} (m : M A) : P A := λ p,
  match m (base p) with
  | (Return a, w') => (Done a, with_base w' p)
  | (Raise e, w') => (Fail (Error e), with_base w' p)
  end.

Definition info (msg : pystr) : P unit := lift (logger_info msg).
Definition error (msg : pystr) : P unit := lift (logger_error msg).

(** [print(line)] *)
Definition print (line : pystr) : P unit := λ p, (Done (), add_stdout line p).

(** [input(prompt)]: the prompt is printed, the next line is read. *)
Definition input (prompt : pystr) : P pystr := λ p,
  match stdin p with
  | line :: rest => (Done line, with_stdin rest (add_stdout prompt p))
  | [] => (Fail EOFError, add_stdout prompt p)
  end.

(** [await asyncio.sleep(seconds)] *)
Definition asyncio_sleep (seconds : Z) : P unit := λ p, (Done (), add_sleep seconds p).

(** What the final state says of a run. *)
Definition result_of {A} (m : P A) (p : process) : answer A := (m p).1.
Definition after {A} (m : P A) (p : process) : process := (m p).2.

(** The connection side of the client library: what a request answers may
    depend on the requests made before it. *)
Record Account := {
  is_connected : list request → bool;
  connect : list request → answer unit;
  is_user_authorized : list request → answer bool;
  send_code_request : list request → pystr → answer unit;
  sign_in : list request → pystr → pystr → answer unit;
  sign_in_password : list request → pystr → answer unit;
  get_dialogs : list request → answer (list dialog);
  disconnect : list request → answer unit;
}.

Section Agent.
Variable uni_alnum : N → bool.
(** [repr] of a [str], as the text of an [OSError] shows the file name. *)
Variable py_repr : pystr → pystr.
Variable client : TelegramClient.
Variable account : Account.
(** [self.phone_number] *)
Variable phone_number : pystr.
(** [while self.running: await asyncio.sleep(1)], with the callback
    registered for the chats: while the loop sleeps the client library runs
    the callback on the messages that arrive, and [signal_handler] clears
    [self.running] and asks for the disconnection.  Both happen
    asynchronously: what they do to the process is left open, and the runs
    described are those in which the loop ends. *)
Variable listening : list Z → (Event → M unit) → P unit.

(** [self.client.is_connected()] *)
Definition client_is_connected : P bool := λ p,
  (Done (is_connected account (requests p)), p).

Definition client_connect : P unit := λ p,
  (connect account (requests p), add_request Connect p).
Definition client_is_user_authorized : P bool := λ p,
  (is_user_authorized account (requests p), add_request IsUserAuthorized p).
Definition client_send_code_request (phone : pystr) : P unit := λ p,
  (send_code_request account (requests p) phone, add_request (SendCodeRequest phone) p).
Definition client_sign_in (phone code : pystr) : P unit := λ p,
  (sign_in account (requests p) phone code, add_request (SignIn phone code) p).
Definition client_sign_in_password (password : pystr) : P unit := λ p,
  (sign_in_password account (requests p) password,
   add_request (SignInPassword password) p).
Definition client_get_dialogs : P (list dialog) := λ p,
  (get_dialogs account (requests p), add_request GetDialogs p).
Definition client_disconnect : P unit := λ p,
  (disconnect account (requests p), add_request Disconnect p).

(** The login of [ensure_connected]: the code, and the password when the
    account asks for one. *)
Definition login : P unit :=
  catch_password_needed
    (code ← input (str "Enter the code received on Telegram: ");
     client_sign_in phone_number code)
    (password ← input (str "Two-step verification enabled. Enter your password: ");
     client_sign_in_password password).

(** The body of the [try] statement of [ensure_connected]. *)
Definition ensure_connected_try : P bool :=
  connected ← client_is_connected;
  (if (connected : bool) then mret () else client_connect);;
  authorized ← client_is_user_authorized;
  (if (authorized : bool) then mret ()
   else
     info (str "Requesting login code for " ++ phone_number);;
     client_send_code_request phone_number;;
     login;;
     info (str "Authorization successful"));;
  mret true.

Definition ensure_connected : P bool := λ p,
  match ensure_connected_try p with
  | (Done b, p') => (Done b, p')
  | (Fail (FloodWaitError seconds _), p') =>
      (error (str "Rate limited! Need to wait " ++ str_of_int seconds
              ++ str " seconds");;
       asyncio_sleep seconds;;
       mret false) p'
  | (Fail e, p') =>
      (error (str "Connection error: " ++ failure_msg e);;
       asyncio_sleep 5;;
       mret false) p'
  end.

(** [f"Chat ID: {dialog.id}, Title: {dialog.title}, Type: {...}"] *)
Definition chat_info (d : dialog) : pystr :=
  str "Chat ID: " ++ str_of_int (dialog_id d) ++ str ", Title: " ++ dialog_title d
  ++ str ", Type: " ++ dialog_type d.

(** [open(output_file, "w", encoding="utf-8")]: the file is created empty,
    in the working directory. *)
Definition open_write (name : pystr) : P unit := λ p,
  if cwd_writable (base p) then (Done (), with_files (<[name := []]> (files p)) p)
  else (Fail (Error (permission_denied (py_repr name))), p).

(** [chats_file.write(text)] *)
Definition file_write (name text : pystr) : P unit := λ p,
  (Done (), with_files (<[name := default [] (files p !! name) ++ text]> (files p)) p).

(** The loop of [list_chats] over the dialogs. *)
Fixpoint write_chats (output_file : pystr) (dialogs : list dialog) : P unit :=
  match dialogs with
  | [] => mret ()
  | dialog :: rest =>
      info (chat_info dialog);;
      file_write output_file (chat_info dialog ++ str (String "010" EmptyString));;
      write_chats output_file rest
  end.

(** [f"chats_of_{self.phone_number}_{stamp}.txt"], [stamp] being
    [datetime.now().strftime('%Y%m%d_%H%M%S')]. *)
Definition chats_file_name (stamp : pystr) : pystr :=
  str "chats_of_" ++ phone_number ++ str "_" ++ stamp ++ str ".txt".

Definition list_chats_try (stamp : pystr) : P unit :=
  info (str "Fetching list of chats...");;
  dialogs ← client_get_dialogs;
  let output_file := chats_file_name stamp in
  open_write output_file;;
  write_chats output_file dialogs;;
  info (str "Listed " ++ str_of_int (Z.of_nat (length dialogs))
        ++ str " chats and saved to " ++ output_file).

Definition list_chats (stamp : pystr) : P unit :=
  ok ← ensure_connected;
  if negb ok then error (str "Failed to connect to Telegram")
  else catch_all (list_chats_try stamp)
         (λ e, error (str "Error listing chats: " ++ failure_msg e)).

(** [setup_message_handlers] as a whole: the connection check, the names and
    the callback, and then the wait. *)
Definition start_forwarding (source_chat_ids : list Z) (destination_chat_id : Z)
  : P unit :=
  ok ← ensure_connected;
  if negb ok then error (str "Failed to connect to Telegram")
  else
    handler ← lift (setup_message_handlers uni_alnum client source_chat_ids
                      destination_chat_id);
    info (str "Message handlers set up successfully");;
    info (str "Waiting for new messages. Press Ctrl+C to stop.");;
    listening source_chat_ids handler.

End Agent.

End Session.
Export Session.

(** ** The two halves of [main]: the credentials, then the menu *)

Module Menu.

(** The truth value of a loaded value, as [all] and [not] take it. *)
Definition json_truthy (v : json) : bool :=
  match v with
  | JNull => false
  | JBool b => b
  | JInt z => negb (z =? 0)%Z
  | JStr s => match s with [] => false | _ :: _ => true end
  | JList l => match l with [] => false | _ :: _ => true end
  | JObj m => negb (bool_decide (dom m = ∅))
  end.

Definition int_of_json (v : json) : option Z :=
  match v with
  | JInt z => Some z
  | _ => None
  end.

(** A saved list of chat IDs. *)
Definition chat_ids_of_json (v : json) : option (list Z) :=
  match v with
  | JList l => mapM int_of_json l
  | _ => None
  end.

(** The config file holds three credentials that count as present. *)
Definition credentials_complete (f : file) : bool :=
  can_read f && holds_object f
  && json_truthy (stored f k_api_id) && json_truthy (stored f k_api_hash)
  && json_truthy (stored f k_phone_number).

(** The config file holds a chat configuration that choice 3 accepts. *)
Definition saved_config_usable (f : file) : bool :=
  can_read f && holds_object f
  && json_truthy (stored f k_source_chat_ids)
  && json_truthy (stored f k_destination_chat_id).

Section Main.
Variable uni_alnum : N → bool.
Variable py_repr : pystr → pystr.
Variable client : TelegramClient.
Variable account : Account.
Variable listening : list Z → (Event → M unit) → P unit.
Variable os_name : pystr.
(** [int(line)], [None] where it raises [ValueError]. *)
Variable py_int : pystr → option Z.
(** What the forwarder does when started on saved values that are not a list
    of integers and an integer; left open. *)
Variable forward_other : json → json → P unit.

(** The start of [main]: the credentials of the config file, or, when one of
    them is missing or empty, three typed ones, which are saved. *)
Definition main_credentials : P (json * json * json) :=
  info (str "Starting Telegram Forwarder");;
  loaded ← lift load_credentials;
  let '(api_id, api_hash, phone_number) := loaded in
  if negb (json_truthy api_id && json_truthy api_hash && json_truthy phone_number)
  then
    api_id ← input (str "Enter your API ID: ");
    api_hash ← input (str "Enter your API Hash: ");
    phone_number ← input (str "Enter your phone number (with country code): ");
    lift (save_credentials os_name api_id api_hash phone_number);;
    mret (JStr api_id, JStr api_hash, JStr phone_number)
  else mret (api_id, api_hash, phone_number).

(** [int(input(prompt))] *)
Definition read_int (prompt : pystr) : P Z :=
  line ← input prompt;
  match py_int line with
  | Some z => mret z
  | None => fail (ValueError (str "invalid literal for int() with base 10: "
                              ++ py_repr line))
  end.

(** [for i in range(num_sources)]: the IDs typed, from number [i + 1] on. *)
Fixpoint read_sources (count : nat) (i : Z) : P (list Z) :=
  match count with
  | 0 => mret []
  | S count' =>
      source_id ← read_int (str "Enter source chat ID #" ++ str_of_int (i + 1)
                            ++ str ": ");
      rest ← read_sources count' (i + 1);
      mret (source_id :: rest)
  end.

(** What choice 2 reads before it saves. *)
Definition read_chat_config : P (list Z * Z) :=
  num_sources ← read_int (str "Enter the number of source chats to monitor: ");
  source_chat_ids ← read_sources (Z.to_nat num_sources) 0;
  destination_channel_id ← read_int (str "Enter the destination chat ID: ");
  mret (source_chat_ids, destination_channel_id).

Section Forwarder.
(** The phone number of the forwarder [main] has built. *)
Variable phone_number : pystr.
(** The clock: [datetime.now()] as [save_chat_config] and [list_chats]
    format it. *)
Variable now stamp : pystr.

Local Abbreviation forward :=
  (start_forwarding uni_alnum client account phone_number listening).

Definition choice_2 : P unit :=
  typed ← read_chat_config;
  let '(source_chat_ids, destination_channel_id) := typed in
  lift (save_chat_config now source_chat_ids destination_channel_id);;
  forward source_chat_ids destination_channel_id.

Definition choice_3 : P unit :=
  saved ← lift load_chat_config;
  let '(source_chat_ids, destination_chat_id) := saved in
  if negb (json_truthy source_chat_ids) || negb (json_truthy destination_chat_id)
  then error (str "No saved configuration found")
  else
    match chat_ids_of_json source_chat_ids, int_of_json destination_chat_id with
    | Some ids, Some dest =>
        info (str "Using saved configuration: forwarding from "
              ++ str_of_int (Z.of_nat (length ids)) ++ str " sources to destination "
              ++ str_of_int dest);;
        forward ids dest
    | _, _ => forward_other source_chat_ids destination_chat_id
    end.

(** The body of the [try] statement of [main]. *)
Definition main_try (choice : pystr) : P unit :=
  if bool_decide (choice = str "1") then list_chats py_repr account phone_number stamp
  else if bool_decide (choice = str "2") then choice_2
  else if bool_decide (choice = str "3") then choice_3
  else if bool_decide (choice = str "4") then info (str "Exiting...")
  else error (str "Invalid choice").

(** The [finally] clause of [main]. *)
Definition main_finally : P unit :=
  connected ← client_is_connected account;
  if (connected : bool) then
    client_disconnect account;;
    info (str "Disconnected from Telegram")
  else mret ().

(** [main] from the menu on. *)
Definition main_menu : P unit :=
  print (str (String "010" "=== Telegram Message Forwarder ==="));;
  print (str "1. List All Chats");;
  print (str "2. Forward Messages from Multiple Sources");;
  print (str "3. Use Saved Configuration");;
  print (str "4. Exit");;
  choice ← input (str (String "010" "Enter your choice (1-4): "));
  finally
    (catch_all (main_try choice)
       (λ e, error (str "An error occurred: " ++ failure_msg e)))
    main_finally.

End Forwarder.
End Main.

End Menu.
Export Menu.

(** ** More concrete inputs *)

Module MoreExamples.

Definition posix : pystr := str "posix".

(** A file of the process that it may write but not read. *)
Definition write_only : perms := {| owned := true; readable := false; writable := true |}.
(** A file of someone else that the process may read and write. *)
Definition shared : perms := {| owned := false; readable := true; writable := true |}.

Definition with_file (p : perms) (c : content) : world :=
  World ∅ [] (File p c) true [].

(** No config file, in a directory where the process may not create one. *)
Definition read_only_dir : world := World ∅ [] NoFile false [].

(** A message that is one word: a token glued to a label by an underscore. *)
Definition labelled : pystr := str "mint_" ++ token43 ++ str " now".

Definition cached : world :=
  World {[ 5%Z := news ]} [] NoFile true [].

End MoreExamples.
Export MoreExamples.

(** ** Concrete accounts and sessions *)

Module SessionExamples.

Definition two_dialogs : list dialog :=
  [ {| dialog_id := -1001; dialog_title := str "News"; dialog_type := str "Channel" |};
    {| dialog_id := 42; dialog_title := str "Ann"; dialog_type := str "User" |} ].

(** An account that is connected and authorized. *)
Definition ready_account : Account :=
  {| is_connected := λ _, true;
     connect := λ _, Done ();
     is_user_authorized := λ _, Done true;
     send_code_request := λ _ _, Done ();
     sign_in := λ _ _ _, Done ();
     sign_in_password := λ _ _, Done ();
     get_dialogs := λ _, Done two_dialogs;
     disconnect := λ _, Done () |}.

(** An account with two-step verification, not yet signed in. *)
Definition two_step_account : Account :=
  {| is_connected := λ h, match h with [] => false | _ => true end;
     connect := λ _, Done ();
     is_user_authorized := λ _, Done false;
     send_code_request := λ _ _, Done ();
     sign_in := λ _ _ _, Fail (SessionPasswordNeededError (str "password required"));
     sign_in_password := λ _ _, Done ();
     get_dialogs := λ _, Done two_dialogs;
     disconnect := λ _, Done () |}.

(** An account that cannot be reached. *)
Definition offline_account : Account :=
  {| is_connected := λ _, false;
     connect := λ _, Fail (Error (Exn RPCError (str "unreachable")));
     is_user_authorized := λ _, Done false;
     send_code_request := λ _ _, Done ();
     sign_in := λ _ _ _, Done ();
     sign_in_password := λ _ _, Done ();
     get_dialogs := λ _, Done [];
     disconnect := λ _, Done () |}.

Definition phone : pystr := str "+100".

Definition session (w : world) (lines : list pystr) : process :=
  Process w [] lines [] [] ∅.

(** A reader of plain decimal literals, an optional minus sign and ASCII
    digits, for the examples: on these [int] gives the same number.  [int]
    accepts more (a plus sign, blanks around the literal, underscores
    between digits, the other decimal digits of Unicode), which this reader
    rejects. *)
Fixpoint digits (acc : Z) (s : pystr) : option Z :=
  match s with
  | [] => Some acc
  | c :: s' =>
      if in_range 48 57 c then digits (10 * acc + (Z.of_N c - 48)) s' else None
  end.

Definition decimal (s : pystr) : option Z :=
  match s with
  | [] => None
  | 45%N :: (_ :: _) as s' => Z.opp <$> digits 0 s'
  | _ => digits 0 s
  end.

(** What the forwarder does with other saved values is not looked at. *)
Definition no_other : json → json → P unit := λ _ _, mret ().

(** [repr] of a [str] of printable characters without quote or backslash. *)
Definition quoted (s : pystr) : pystr := str "'" ++ s ++ str "'".

(** A wait that ends at once, no message having arrived. *)
Definition no_message : list Z → (Event → M unit) → P unit := λ _ _, mret ().

(** The config file after choice 2 with a count of 0. *)
Definition no_sources : world := run (save_chat_config stamp [] 99) world0.

End SessionExamples.
Export SessionExamples.
(** The token of the spec's scenario has 42 characters, one short. *)
Example scenario_search :
  length (str "aB3xY9kLp2Qw8Rt5Zv1Nc7Mf4Hj6Gd0Ss3Ee9Tt1Yy") = 42
  ∧ re_search ascii_only TOKEN_RE scenario_text = None.
Proof. split; vm_compute; reflexivity. Qed.

(** ** Properties of the engine *)

Section EngineFacts.
Variable uni_alnum : N → bool.

Local Abbreviation is_word := (is_word uni_alnum).
Local Abbreviation word_opt := (word_opt uni_alnum).
Local Abbreviation at_boundary := (at_boundary uni_alnum).

Lemma alnum_is_word c : ascii_alnum c = true → is_word c = true.
Proof.
  intros H. unfold Re.is_word.
  destruct (N.ltb_spec c 128) as [_|Hge]; [by rewrite H|].
  unfold ascii_alnum, in_range in H.
  rewrite !orb_true_iff, !andb_true_iff, !N.leb_le in H. lia.
Qed.

Lemma count_set_le set hi s : count_set set hi s ≤ hi.
Proof.
  revert s; induction hi as [|hi IH]; intros [|c s]; simpl; try lia.
  destruct (set c); [specialize (IH s)|]; lia.
Qed.

Lemma count_set_in set hi s j :
  j < count_set set hi s → ∃ c, s !! j = Some c ∧ set c = true.
Proof.
  revert s j; induction hi as [|hi IH]; intros [|c s] j; simpl; try lia.
  destruct (set c) eqn:Hc; [|lia].
  destruct j as [|j]; [eauto|]. intros Hj. apply (IH s j). lia.
Qed.

Lemma count_set_ge set hi s n :
  n ≤ hi → n ≤ length s → forallb set (take n s) = true →
  n ≤ count_set set hi s.
Proof.
  revert s n; induction hi as [|hi IH]; intros [|c s] [|n]; simpl; try lia.
  intros Hn Hl H. apply andb_true_iff in H as [-> H].
  specialize (IH s n ltac:(lia) ltac:(lia) H). lia.
Qed.

Lemma count_set_length set hi s : count_set set hi s ≤ length s.
Proof.
  revert s; induction hi as [|hi IH]; intros [|c s]; simpl; try lia.
  destruct (set c); [specialize (IH s)|]; lia.
Qed.

Lemma count_set_forallb set hi s :
  forallb set (take (count_set set hi s) s) = true.
Proof.
  revert s; induction hi as [|hi IH]; intros [|c s]; simpl; try done.
  destruct (set c) eqn:Hc; simpl; [by rewrite Hc, IH | done].
Qed.

(** When the continuation fails at every shorter repetition count, the
    greedy loop succeeds exactly when it does at the longest one. *)
Lemma backtrack_top cont lo k :
  0 < lo → (∀ j, lo ≤ j < k → cont j = None) →
  backtrack cont lo k
  = if k <? lo then None else (λ n, k + n) <$> cont k.
Proof.
  intros Hlo. induction k as [|k IH]; intros Hc.
  - simpl. destruct lo; [lia|]. done.
  - simpl backtrack. destruct (S k <? lo) eqn:Hk; [done|].
    destruct (cont (S k)) as [n|]; [done|]. simpl.
    rewrite IH by (intros j Hj; apply Hc; lia).
    apply Nat.ltb_ge in Hk.
    destruct (k <? lo) eqn:Hk'; [done|].
    apply Nat.ltb_ge in Hk'. rewrite Hc by lia. done.
Qed.

Lemma head_drop_lookup (s : pystr) k : head (drop k s) = s !! k.
Proof. rewrite head_lookup, lookup_drop. f_equal. lia. Qed.

(** Inside a run of set characters no position is a word boundary. *)
Lemma no_boundary_inside prev s j :
  0 < j → j < count_set ascii_alnum 44 s →
  at_boundary (prev_at prev s j) (drop j s) = false.
Proof.
  intros Hj Hlt. destruct j as [|j]; [lia|]. simpl.
  destruct (count_set_in ascii_alnum 44 s j) as (c & Hc & Hs); [lia|].
  destruct (count_set_in ascii_alnum 44 s (S j)) as (c' & Hc' & Hs'); [lia|].
  unfold Re.at_boundary. rewrite head_drop_lookup, Hc, Hc'. simpl.
  by rewrite !alnum_is_word.
Qed.

(** The token pattern matches at a position exactly when a run of 43 or
    44 set characters starts there, with a non-word neighbour (or none)
    on either side. *)
Lemma re_match_token prev s n :
  re_match uni_alnum TOKEN_RE prev s = Some n ↔
  (n = 43 ∨ n = 44) ∧ n ≤ length s
  ∧ forallb ascii_alnum (take n s) = true
  ∧ word_opt prev = false ∧ word_opt (s !! n) = false.
Proof.
  set (k0 := count_set ascii_alnum 44 s).
  set (cont := λ k : nat,
         if at_boundary (prev_at prev s k) (drop k s) then Some 0 else None).
  change (re_match uni_alnum TOKEN_RE prev s)
    with (if at_boundary prev s then backtrack cont 43 k0 else None).
  assert (Hk44 : k0 ≤ 44) by apply count_set_le.
  assert (Hklen : k0 ≤ length s) by apply count_set_length.
  assert (Hkall : forallb ascii_alnum (take k0 s) = true)
    by apply count_set_forallb.
  assert (Hbt : backtrack cont 43 k0
                = if k0 <? 43 then None else (λ n, k0 + n) <$> cont k0).
  { apply backtrack_top; [lia|]. intros j Hj. unfold cont.
    rewrite no_boundary_inside; [done | lia | fold k0; lia]. }
  rewrite Hbt. clear Hbt. split.
  - destruct (at_boundary prev s) eqn:Hb0; [|done].
    destruct (Nat.ltb_spec k0 43) as [|Hk43]; [done|].
    unfold cont. destruct (at_boundary (prev_at prev s k0) _) eqn:Hb1; [|done].
    simpl. intros [= <-]. rewrite Nat.add_0_r.
    destruct (count_set_in ascii_alnum 44 s 0) as (c0 & Hc0 & Hs0); [fold k0; lia|].
    destruct (count_set_in ascii_alnum 44 s (k0 - 1)) as (c1 & Hc1 & Hs1);
      [fold k0; lia|].
    split_and!; [lia | done | done | |].
    + unfold Re.at_boundary in Hb0. rewrite head_lookup, Hc0 in Hb0. simpl in Hb0.
      rewrite alnum_is_word in Hb0 by done. by destruct (word_opt prev).
    + unfold Re.at_boundary in Hb1. rewrite head_drop_lookup in Hb1.
      replace k0 with (S (k0 - 1)) in Hb1 at 1 by lia. simpl in Hb1.
      rewrite Hc1 in Hb1. simpl in Hb1.
      rewrite alnum_is_word in Hb1 by done. by destruct (word_opt (s !! k0)).
  - intros (Hn & Hlen & Hall & Hp & Hq).
    assert (Hge : n ≤ k0) by (apply count_set_ge; [lia | done | done]).
    assert (k0 = n) as Hk.
    { destruct (decide (n < k0)) as [Hlt|]; [|lia].
      destruct (count_set_in ascii_alnum 44 s n Hlt) as (c & Hc & Hs).
      rewrite Hc in Hq. simpl in Hq. rewrite alnum_is_word in Hq; done. }
    destruct (count_set_in ascii_alnum 44 s 0) as (c0 & Hc0 & Hs0); [fold k0; lia|].
    destruct (count_set_in ascii_alnum 44 s (k0 - 1)) as (c1 & Hc1 & Hs1);
      [fold k0; lia|].
    assert (Hb0 : at_boundary prev s = true).
    { unfold Re.at_boundary. rewrite head_lookup, Hc0, Hp. simpl.
      by rewrite alnum_is_word. }
    assert (Hb1 : cont k0 = Some 0).
    { unfold cont, Re.at_boundary. rewrite head_drop_lookup.
      replace k0 with (S (k0 - 1)) at 1 by lia. simpl.
      rewrite Hc1, Hk, Hq. simpl. by rewrite alnum_is_word. }
    rewrite Hb0, Hb1. destruct (Nat.ltb_spec k0 43); [lia|].
    simpl. f_equal. lia.
Qed.

Lemma char_before_app pre (s : pystr) :
  char_before (pre ++ s) (length pre) = last pre.
Proof.
  unfold char_before. destruct pre as [|c pre] using rev_ind; [done|].
  rewrite length_app. simpl. rewrite Nat.add_1_r. simpl.
  rewrite last_snoc, <- app_assoc. simpl.
  by rewrite list_lookup_middle.
Qed.

Lemma qualifying_app pre s n :
  qualifying uni_alnum (pre ++ s) (length pre) n = true ↔
  (n = 43 ∨ n = 44) ∧ n ≤ length s
  ∧ forallb ascii_alnum (take n s) = true
  ∧ word_opt (last pre) = false ∧ word_opt (s !! n) = false.
Proof.
  unfold qualifying, alnum_run, word_delimited, slice.
  rewrite char_before_app, drop_app_length, lookup_app_r by lia.
  replace (length pre + n - length pre) with n by lia.
  rewrite !andb_true_iff, orb_true_iff, !Nat.eqb_eq, Nat.leb_le,
    !negb_true_iff, length_app.
  intuition lia.
Qed.

Lemma re_match_qualifying pre s n :
  re_match uni_alnum TOKEN_RE (last pre) s = Some n
  ↔ qualifying uni_alnum (pre ++ s) (length pre) n = true.
Proof. by rewrite re_match_token, qualifying_app. Qed.

Lemma qualifying_length text i n :
  qualifying uni_alnum text i n = true → 43 ≤ n ≤ 44 ∧ i + n ≤ length text.
Proof.
  unfold qualifying, alnum_run.
  rewrite !andb_true_iff, orb_true_iff, !Nat.eqb_eq, Nat.leb_le. lia.
Qed.

Lemma not_qualifying_here pre s :
  re_match uni_alnum TOKEN_RE (last pre) s = None →
  ∀ n, qualifying uni_alnum (pre ++ s) (length pre) n = false.
Proof.
  intros E n. destruct (qualifying uni_alnum (pre ++ s) (length pre) n) eqn:Hq; [|done].
  apply re_match_qualifying in Hq. congruence.
Qed.

Lemma search_from_eq p pos prev s :
  search_from uni_alnum p pos prev s
  = match re_match uni_alnum p prev s with
    | Some n => Some {| m_start := pos; m_group := take n s |}
    | None => match s with
              | [] => None
              | c :: s' => search_from uni_alnum p (S pos) (Some c) s'
              end
    end.
Proof. by destruct s. Qed.

(** The scan from a position finds the first qualifying run at or after it. *)
Lemma search_from_Some s : ∀ pre m,
  search_from uni_alnum TOKEN_RE (length pre) (last pre) s = Some m ↔
  ∃ i n, length pre ≤ i
    ∧ qualifying uni_alnum (pre ++ s) i n = true
    ∧ (∀ j n', length pre ≤ j < i → qualifying uni_alnum (pre ++ s) j n' = false)
    ∧ m = {| m_start := i; m_group := slice (pre ++ s) i n |}.
Proof.
  induction s as [|c s IH]; intros pre m.
  - rewrite search_from_eq.
    destruct (re_match uni_alnum TOKEN_RE (last pre) []) as [n|] eqn:E; cbv iota.
    + apply re_match_token in E as (Hn & Hl & _). simpl in Hl. lia.
    + split; [done|]. intros (i & n & Hi & Hq & _).
      apply qualifying_length in Hq. rewrite length_app in Hq. simpl in Hq. lia.
  - rewrite search_from_eq.
    destruct (re_match uni_alnum TOKEN_RE (last pre) (c :: s)) as [n|] eqn:E; cbv iota.
    + split.
      * intros [= <-]. exists (length pre), n. split_and!; [lia | | intros; lia |].
        -- by apply re_match_qualifying.
        -- unfold slice. by rewrite drop_app_length.
      * intros (i & n' & Hi & Hq & Hfirst & ->).
        destruct (decide (i = length pre)) as [->|Hne].
        -- apply re_match_qualifying in Hq. rewrite E in Hq.
           injection Hq as <-. unfold slice. by rewrite drop_app_length.
        -- apply re_match_qualifying in E.
           rewrite (Hfirst (length pre) n) in E by lia. done.
    + specialize (IH (pre ++ [c]) m).
      rewrite length_app, last_snoc, <- app_assoc in IH. simpl in IH.
      rewrite Nat.add_1_r in IH. rewrite IH. clear IH.
      split; intros (i & n & Hi & Hq & Hfirst & ->); exists i, n.
      * split_and!; [lia | done | | done]. intros j n' Hj.
        destruct (decide (j = length pre)) as [->|];
          [by apply not_qualifying_here | apply Hfirst; lia].
      * assert (i ≠ length pre).
        { intros ->. by rewrite not_qualifying_here in Hq. }
        split_and!; [lia | done | | done]. intros j n' Hj. apply Hfirst. lia.
Qed.

Lemma search_from_None s : ∀ pre,
  search_from uni_alnum TOKEN_RE (length pre) (last pre) s = None ↔
  ∀ i n, length pre ≤ i → qualifying uni_alnum (pre ++ s) i n = false.
Proof.
  induction s as [|c s IH]; intros pre.
  - rewrite search_from_eq.
    destruct (re_match uni_alnum TOKEN_RE (last pre) []) as [n|] eqn:E; cbv iota.
    + apply re_match_token in E as (Hn & Hl & _). simpl in Hl. lia.
    + split; [|done]. intros _ i n Hi.
      destruct (qualifying uni_alnum (pre ++ []) i n) eqn:Hq; [|done].
      apply qualifying_length in Hq. rewrite length_app in Hq. simpl in Hq. lia.
  - rewrite search_from_eq.
    destruct (re_match uni_alnum TOKEN_RE (last pre) (c :: s)) as [n|] eqn:E; cbv iota.
    + split; [done|]. intros Hall. apply re_match_qualifying in E.
      rewrite Hall in E by lia. done.
    + specialize (IH (pre ++ [c])).
      rewrite length_app, last_snoc, <- app_assoc in IH. simpl in IH.
      rewrite Nat.add_1_r in IH. rewrite IH. clear IH.
      split; intros Hall i n Hi.
      * destruct (decide (i = length pre)) as [->|];
          [by apply not_qualifying_here | apply Hall; lia].
      * apply Hall. lia.
Qed.

(** [re.search] returns the leftmost qualifying run, with its offset. *)
Lemma re_search_Some text m :
  re_search uni_alnum TOKEN_RE text = Some m ↔
  ∃ i n, first_qualifying uni_alnum text i n
         ∧ m = {| m_start := i; m_group := slice text i n |}.
Proof.
  unfold re_search. rewrite (search_from_Some text [] m). simpl.
  split; intros (i & n & H).
  - destruct H as (_ & Hq & Hfirst & ->). exists i, n. split; [|done].
    split; [done|]. intros j k Hj.
    destruct (decide (i ≤ j)); [done|]. rewrite Hfirst in Hj by lia. done.
  - destruct H as ((Hq & Hfirst) & ->). exists i, n.
    split_and!; [lia | done | | done]. intros j n' Hj.
    destruct (qualifying uni_alnum text j n') eqn:Hq'; [|done].
    apply Hfirst in Hq'. lia.
Qed.

Lemma re_search_None text :
  re_search uni_alnum TOKEN_RE text = None ↔
  ∀ i n, qualifying uni_alnum text i n = false.
Proof.
  unfold re_search. rewrite (search_from_None text []). simpl.
  split; intros H i n; [apply H; lia | intros _; apply H].
Qed.

Lemma first_qualifying_unique text i n j k :
  first_qualifying uni_alnum text i n → first_qualifying uni_alnum text j k →
  i = j ∧ n = k.
Proof.
  intros H1 H2.
  assert (re_search uni_alnum TOKEN_RE text
          = Some {| m_start := i; m_group := slice text i n |}) as E1
    by (apply re_search_Some; eauto).
  assert (re_search uni_alnum TOKEN_RE text
          = Some {| m_start := j; m_group := slice text j k |}) as E2
    by (apply re_search_Some; eauto).
  rewrite E1 in E2. injection E2 as -> E.
  split; [done|]. apply (f_equal length) in E. unfold slice in E.
  destruct H1 as [H1 _], H2 as [H2 _].
  apply qualifying_length in H1, H2.
  rewrite !length_take, !length_drop in E. lia.
Qed.

(** Some run qualifies exactly when a leftmost one does. *)
Lemma qualifying_first text i n :
  qualifying uni_alnum text i n = true →
  ∃ j k, j ≤ i ∧ first_qualifying uni_alnum text j k.
Proof.
  intros Hq. destruct (re_search uni_alnum TOKEN_RE text) as [m|] eqn:E.
  - apply re_search_Some in E as (j & k & Hf & _). exists j, k.
    split; [|done]. destruct Hf as [_ Hf]. by apply (Hf i n).
  - rewrite re_search_None in E. rewrite E in Hq. done.
Qed.

(** The match object locates the leftmost qualifying run. *)
Lemma re_search_first text m :
  re_search uni_alnum TOKEN_RE text = Some m →
  first_qualifying uni_alnum text (m_start m) (length (m_group m))
  ∧ m_group m = slice text (m_start m) (length (m_group m)).
Proof.
  intros (i & n & Hf & ->)%re_search_Some. simpl.
  pose proof (qualifying_length text i n (proj1 Hf)) as Hlen.
  assert (length (slice text i n) = n) as ->; [|done].
  unfold slice. rewrite length_take, length_drop. lia.
Qed.

End EngineFacts.

(** ** Properties of the forwarder *)

Section ForwarderFacts.
Variable uni_alnum : N → bool.
Variable client : TelegramClient.

Local Abbreviation get_chat_name := (get_chat_name client).

Lemma sends_app cs cs' : sends (cs ++ cs') = sends cs ++ sends cs'.
Proof. apply omap_app. Qed.

Lemma lookups_app cs cs' : lookups (cs ++ cs') = lookups cs ++ lookups cs'.
Proof. apply omap_app. Qed.

(** A cache hit: no request, no change of state. *)
Lemma get_chat_name_cached chat_id e w :
  source_entities w !! chat_id = Some e →
  get_chat_name chat_id w = (Return (display_name e chat_id), w).
Proof.
  intros Hc. unfold Forwarder.get_chat_name, mbind, M_bind, gets. simpl.
  rewrite bool_decide_eq_false_2 by (rewrite not_elem_of_dom, Hc; naive_solver).
  unfold mret, M_ret, cached_entity, mbind, M_bind, gets. simpl.
  by rewrite Hc.
Qed.

(** A miss answered by the client: the entity is stored. *)
Lemma get_chat_name_fetched chat_id e w :
  source_entities w !! chat_id = None →
  get_entity client (calls w) chat_id = Return e →
  get_chat_name chat_id w
  = (Return (display_name e chat_id),
     set_source_entities <[chat_id := e]> (add_call (GetEntity chat_id) w)).
Proof.
  intros Hc He. unfold Forwarder.get_chat_name, mbind, M_bind, gets. simpl.
  rewrite bool_decide_eq_true_2 by (by rewrite not_elem_of_dom).
  unfold get_chat_name_fetch, try_except, mbind, M_bind, client_get_entity.
  rewrite He. simpl.
  unfold cached_entity, mbind, M_bind, gets. simpl.
  by rewrite lookup_insert_eq.
Qed.

(** A miss the client fails on: the failure is logged, nothing is stored. *)
Lemma get_chat_name_failed chat_id e w :
  source_entities w !! chat_id = None →
  get_entity client (calls w) chat_id = Raise e →
  get_chat_name chat_id w
  = (Return (chat_label chat_id),
     add_log ERROR (str "Error getting entity " ++ str_of_int chat_id
                    ++ str ": " ++ exn_msg e)
       (add_call (GetEntity chat_id) w)).
Proof.
  intros Hc He. unfold Forwarder.get_chat_name, mbind, M_bind, gets. simpl.
  rewrite bool_decide_eq_true_2 by (by rewrite not_elem_of_dom).
  unfold get_chat_name_fetch, try_except, mbind, M_bind, client_get_entity.
  rewrite He. reflexivity.
Qed.

(** The three cases together: [get_chat_name] returns a name, and issues
    no request other than at most one [get_entity] for its argument. *)
Lemma get_chat_name_cases chat_id w :
  ∃ name w', get_chat_name chat_id w = (Return name, w')
    ∧ config_file w' = config_file w
    ∧ source_entities w ⊆ source_entities w'
    ∧ ((calls w' = calls w ∧ is_Some (source_entities w !! chat_id))
       ∨ (calls w' = calls w ++ [GetEntity chat_id]
          ∧ source_entities w !! chat_id = None)).
Proof.
  destruct (source_entities w !! chat_id) as [e|] eqn:Hc.
  - eexists _, _. split; [by apply get_chat_name_cached|].
    split_and!; [done | done | left; eauto].
  - destruct (get_entity client (calls w) chat_id) as [e|e] eqn:He.
    + eexists _, _. split; [by apply get_chat_name_fetched|].
      split_and!; [done | by apply insert_subseteq | right; eauto].
    + eexists _, _. split; [by apply get_chat_name_failed|].
      split_and!; [done | done | right; eauto].
Qed.

Lemma get_chat_name_sends chat_id w :
  ∃ name w', get_chat_name chat_id w = (Return name, w')
    ∧ sends (calls w') = sends (calls w).
Proof.
  destruct (get_chat_name_cases chat_id w) as (name & w' & E & _ & _ & H).
  exists name, w'. split; [done|].
  destruct H as [[-> _]|[-> _]]; [done|].
  rewrite sends_app. simpl. by rewrite app_nil_r.
Qed.

(** Resolving the names of the sources asks for no send and returns. *)
Lemma resolve_sources_returns ids : ∀ names w,
  ∃ names' w', resolve_sources client ids names w = (Return names', w')
               ∧ sends (calls w') = sends (calls w).
Proof.
  induction ids as [|chat_id ids IH]; intros names w; [by eexists _, _|].
  simpl. unfold mbind, M_bind.
  destruct (get_chat_name_sends chat_id w) as (name & w1 & -> & <-).
  unfold logger_info, modify. cbv beta iota.
  match goal with
  | |- context [resolve_sources client ids ?n ?w0] =>
      destruct (IH n w0) as (names' & w' & -> & Hs)
  end.
  by eexists _, _.
Qed.

(** Setting the subscription up returns the callback, closed over the
    resolved names and the destination. *)
Lemma setup_message_handlers_returns ids dest w :
  ∃ names dest_name w',
    setup_message_handlers uni_alnum client ids dest w
    = (Return (new_message_handler uni_alnum client names dest_name dest), w')
    ∧ sends (calls w') = sends (calls w).
Proof.
  unfold setup_message_handlers, mbind, M_bind.
  destruct (resolve_sources_returns ids ∅ w) as (names & w1 & -> & <-).
  destruct (get_chat_name_sends dest w1) as (dest_name & w2 & -> & <-).
  by eexists _, _, _.
Qed.

Section HandlerFacts.
Variable source_names : gmap Z pystr.
Variable dest_name : pystr.
Variable destination_chat_id : Z.

Local Abbreviation handler :=
  (new_message_handler uni_alnum client source_names dest_name destination_chat_id).
Local Abbreviation handler_try :=
  (new_message_handler_try uni_alnum client source_names dest_name
     destination_chat_id).

(** The callback returns normally. *)
Lemma handler_returns event w : ∃ w', handler event w = (Return (), w').
Proof.
  unfold new_message_handler, try_except.
  destruct (handler_try event w) as [[[]|e] w1]; [by eexists|].
  by eexists.
Qed.

(** What the callback asks the client to send: the token, once, when
    the text has one; nothing otherwise. *)
Lemma handler_sends event w :
  sends (calls (run (handler event) w))
  = sends (calls w)
    ++ match token_of uni_alnum event with
       | Some token => [(destination_chat_id, token)]
       | None => []
       end.
Proof.
  unfold run, new_message_handler, try_except, new_message_handler_try,
    token_of, mbind, M_bind.
  destruct (get_chat_name_sends (chat_id event) w) as (name & w1 & -> & <-).
  destruct (truthy (message_text event)); [|by rewrite app_nil_r].
  destruct (re_search uni_alnum TOKEN_RE _) as [m|]; [|by rewrite app_nil_r].
  simpl. unfold client_send_message.
  destruct (send_message client _ _ _) as [[]|e]; simpl;
    by rewrite sends_app.
Qed.

End HandlerFacts.

End ForwarderFacts.

(** ** The token filter of the relay callback *)

Section TokenClaims.
Variable uni_alnum : N → bool.

(** The characters of a run are all in the set. *)
Lemma alnum_run_lookup text i n p :
  alnum_run text i n = true → i ≤ p < i + n →
  ∃ c, text !! p = Some c ∧ ascii_alnum c = true.
Proof.
  unfold alnum_run, slice. rewrite andb_true_iff, Nat.leb_le.
  intros [Hlen Hall] Hp.
  destruct (lookup_lt_is_Some_2 text p) as [c Hc]; [lia|].
  exists c. split; [done|].
  rewrite forallb_forall in Hall. apply Hall.
  apply list_elem_of_In, list_elem_of_lookup. exists (p - i).
  rewrite lookup_take_lt, lookup_drop by lia.
  by replace (i + (p - i)) with p by lia.
Qed.

Lemma char_before_lookup (text : pystr) i :
  0 < i → char_before text i = text !! (i - 1).
Proof. destruct i; [lia|]. intros _. simpl. f_equal. lia. Qed.

(** A qualifying run and a maximal alphanumeric run that share a
    position are the same run. *)
Lemma qualifying_maximal_same text i n j k :
  maximal_alnum_run text i n = true → qualifying uni_alnum text j k = true →
  j < i + n → i < j + k → i = j ∧ n = k.
Proof.
  unfold maximal_alnum_run, qualifying, word_delimited.
  rewrite !andb_true_iff, !negb_true_iff, Nat.ltb_lt.
  intros [[[Hn Hrun] Hl] Hr] [[Hk Hrun'] [Hl' Hr']] H1 H2.
  assert (i = j) as <-.
  { destruct (Nat.lt_trichotomy i j) as [Hlt|[->|Hlt]]; [|done|].
    - destruct (alnum_run_lookup text i n (j - 1) Hrun) as (c & Hc & Ha); [lia|].
      rewrite char_before_lookup, Hc in Hl' by lia. simpl in Hl'.
      rewrite alnum_is_word in Hl'; done.
    - destruct (alnum_run_lookup text j k (i - 1) Hrun') as (c & Hc & Ha); [lia|].
      rewrite char_before_lookup, Hc in Hl by lia. simpl in Hl. congruence. }
  split; [done|].
  destruct (Nat.lt_trichotomy n k) as [Hlt|[->|Hlt]]; [|done|].
  - destruct (alnum_run_lookup text i k (i + n) Hrun') as (c & Hc & Ha); [lia|].
    rewrite Hc in Hr. simpl in Hr. congruence.
  - destruct (alnum_run_lookup text i n (i + k) Hrun) as (c & Hc & Ha); [lia|].
    rewrite Hc in Hr'. simpl in Hr'. rewrite alnum_is_word in Hr'; done.
Qed.

Lemma slice_length (text : pystr) i n :
  i + n ≤ length text → length (slice text i n) = n.
Proof. intros H. unfold slice. rewrite length_take, length_drop. lia. Qed.

Lemma token_of_first chat text i n :
  first_qualifying uni_alnum text i n →
  token_of uni_alnum (event_of chat text) = Some (slice text i n).
Proof.
  intros Hf. unfold token_of. simpl.
  assert (re_search uni_alnum TOKEN_RE text
          = Some {| m_start := i; m_group := slice text i n |}) as E
    by (apply re_search_Some; eauto).
  destruct Hf as [Hq _]. apply qualifying_length in Hq.
  destruct text as [|c text]; [simpl in Hq; lia|].
  simpl. by rewrite E.
Qed.

Lemma token_of_Some chat text token :
  token_of uni_alnum (event_of chat text) = Some token →
  ∃ i n, first_qualifying uni_alnum text i n ∧ token = slice text i n.
Proof.
  unfold token_of. simpl. destruct text as [|c text]; [done|]. simpl.
  destruct (re_search uni_alnum TOKEN_RE (c :: text)) as [m|] eqn:E; [|done].
  intros [= <-]. apply re_search_first in E as [Hf Hg]. unfold group. eauto.
Qed.

Lemma token_of_none chat text :
  (∀ i n, qualifying uni_alnum text i n = false) →
  token_of uni_alnum (event_of chat text) = None.
Proof.
  intros Hn. unfold token_of. simpl.
  destruct text as [|c text]; [done|]. simpl.
  by rewrite (proj2 (re_search_None uni_alnum (c :: text)) Hn).
Qed.

Variable client : TelegramClient.
Variable source_names : gmap Z pystr.
Variable dest_name : pystr.
Variable destination_chat_id : Z.

Local Abbreviation handler :=
  (new_message_handler uni_alnum client source_names dest_name destination_chat_id).

(** C1.  When the text of an inbound message contains a
    word-boundary-delimited run of exactly 43 or 44 ASCII alphanumerics at
    offset [i], the callback asks the client for one send to the destination,
    whose text is such a run, copied character for character from the
    message: the leftmost one, which is the run at [i] itself when no
    qualifying run starts before it.  A maximal alphanumeric run of 42
    characters or fewer, or of 45 or more, shares no position with any
    qualifying run, hence none with the match [re.search] returns nor with
    the text of any send the callback asks for: it is neither matched nor
    forwarded, in whole or in part. *)
Theorem token_run_forwarded_verbatim chat text w :
  let w' := run (handler (event_of chat text)) w in
  (∀ i n, qualifying uni_alnum text i n = true →
     ∃ j k, j ≤ i ∧ first_qualifying uni_alnum text j k
       ∧ sends (calls w') = sends (calls w) ++ [(destination_chat_id, slice text j k)]
       ∧ (first_qualifying uni_alnum text i n → j = i ∧ k = n))
  ∧ (∀ i n, maximal_alnum_run text i n = true → n ≤ 42 ∨ 45 ≤ n →
       (∀ j k, qualifying uni_alnum text j k = true → j + k ≤ i ∨ i + n ≤ j)
       ∧ (∀ m, re_search uni_alnum TOKEN_RE text = Some m → ¬ overlaps m i n)
       ∧ ∀ sent, sent ∈ drop (length (sends (calls w))) (sends (calls w')) →
           ∃ j k, first_qualifying uni_alnum text j k
                  ∧ sent = (destination_chat_id, slice text j k)
                  ∧ (j + k ≤ i ∨ i + n ≤ j)).
Proof.
  intros w'. split.
  - intros i n Hq.
    destruct (qualifying_first uni_alnum text i n Hq) as (j & k & Hji & Hf).
    exists j, k. split_and!; [done | done | |].
    + unfold w'. rewrite handler_sends.
      by rewrite (token_of_first chat text j k Hf).
    + intros Hf'. by apply (first_qualifying_unique uni_alnum text).
  - intros i n Hmax Hn.
    assert (Hdisj : ∀ j k, qualifying uni_alnum text j k = true →
                           j + k ≤ i ∨ i + n ≤ j).
    { intros j k Hq.
      destruct (decide (j + k ≤ i)); [by left|].
      destruct (decide (i + n ≤ j)); [by right|].
      destruct (qualifying_maximal_same text i n j k Hmax Hq) as [_ <-]; [lia..|].
      apply qualifying_length in Hq. lia. }
    split_and!; [done | | ].
    + intros m Hm (p & Hp1 & Hp2).
      apply re_search_Some in Hm as (j & k & [Hq _] & ->). simpl in Hp1.
      pose proof (qualifying_length uni_alnum text j k Hq) as Hlen.
      rewrite slice_length in Hp1 by lia.
      destruct (Hdisj j k Hq); lia.
    + intros sent. unfold w'. rewrite handler_sends, drop_app_length.
      destruct (token_of uni_alnum (event_of chat text)) as [token|] eqn:E;
        [|by intros ?%not_elem_of_nil].
      intros ->%list_elem_of_singleton.
      apply token_of_Some in E as (j & k & Hf & ->).
      exists j, k. split_and!; [done | done | by apply Hdisj, Hf].
Qed.

(** C2.  The callback asks for at most one send per inbound message.  When
    runs qualify, the one send carries the leftmost of them, however many
    there are; when no run qualifies, or the message has no text or an
    empty one, the callback asks for no send at all. *)
Theorem at_most_one_send_per_message event w :
  let w' := run (handler event) w in
  (∃ new, sends (calls w') = sends (calls w) ++ new ∧ length new ≤ 1)
  ∧ (∀ text i n j k,
       message_text event = Some text →
       first_qualifying uni_alnum text i n →
       qualifying uni_alnum text j k = true →
       sends (calls w') = sends (calls w) ++ [(destination_chat_id, slice text i n)]
       ∧ (i ≠ j → slice text j k ≠ slice text i n
          → (destination_chat_id, slice text j k)
            ∉ drop (length (sends (calls w))) (sends (calls w'))))
  ∧ (∀ text, message_text event = Some text →
       (∀ i n, qualifying uni_alnum text i n = false) →
       sends (calls w') = sends (calls w))
  ∧ (truthy (message_text event) = false → sends (calls w') = sends (calls w)).
Proof.
  intros w'. unfold w'. rewrite handler_sends. split_and!.
  - eexists. split; [done|]. destruct (token_of _ _); simpl; lia.
  - intros text i n j k Ht Hf Hq. destruct event as [chat t]. simpl in Ht. subst t.
    pose proof (token_of_first chat text i n Hf) as E.
    unfold event_of in E. rewrite E. split; [done|].
    intros _ Hne. rewrite drop_app_length.
    intros Hin%list_elem_of_singleton. congruence.
  - intros text Ht Hn. destruct event as [chat t]. simpl in Ht. subst t.
    pose proof (token_of_none chat text Hn) as E.
    unfold event_of in E. rewrite E. by rewrite app_nil_r.
  - intros Ht. unfold token_of. rewrite Ht. by rewrite app_nil_r.
Qed.

(** With a word character next to it, such as an underscore, a run is not
    what the pattern matches at its position. *)
Lemma run_beside_word_character_not_matched pre tok post :
  word_opt uni_alnum (last pre) = true ∨ word_opt uni_alnum (head post) = true →
  re_match uni_alnum TOKEN_RE (last pre) (tok ++ post) ≠ Some (length tok).
Proof.
  intros Hw Hm. apply re_match_token in Hm as (_ & _ & _ & Hl & Hr).
  rewrite lookup_app_r, Nat.sub_diag, <- head_lookup in Hr by lia.
  destruct Hw; congruence.
Qed.

(** C3, amended.  A run of 43 or 44 ASCII alphanumerics qualifies as a token
    whenever each side is bounded by a non-word character (one that is
    neither alphanumeric nor the underscore) or by the end of the string:
    the pattern matches it at its position, and when no qualifying run
    starts before it the callback forwards it. *)
Theorem run_between_non_word_characters_matches pre tok post chat w :
  length tok = 43 ∨ length tok = 44 →
  forallb ascii_alnum tok = true →
  word_opt uni_alnum (last pre) = false →
  word_opt uni_alnum (head post) = false →
  let text := pre ++ tok ++ post in
  re_match uni_alnum TOKEN_RE (last pre) (tok ++ post) = Some (length tok)
  ∧ qualifying uni_alnum text (length pre) (length tok) = true
  ∧ ((∀ j k, qualifying uni_alnum text j k = true → length pre ≤ j) →
     re_search uni_alnum TOKEN_RE text
     = Some {| m_start := length pre; m_group := tok |}
     ∧ sends (calls (run (handler (event_of chat text)) w))
       = sends (calls w) ++ [(destination_chat_id, tok)]).
Proof.
  intros Hlen Hall Hl Hr text.
  assert (Htake : take (length tok) (tok ++ post) = tok) by apply take_app_length.
  assert (Hnext : (tok ++ post) !! length tok = head post).
  { rewrite lookup_app_r, Nat.sub_diag, head_lookup by lia. done. }
  assert (Hm : re_match uni_alnum TOKEN_RE (last pre) (tok ++ post)
               = Some (length tok)).
  { apply re_match_token. rewrite Htake, Hnext, length_app.
    split_and!; [done | lia | done | done | done]. }
  assert (Hq : qualifying uni_alnum text (length pre) (length tok) = true)
    by by apply re_match_qualifying.
  split_and!; [done | done |]. intros Hfirst.
  assert (Hs : slice text (length pre) (length tok) = tok).
  { unfold slice, text. by rewrite drop_app_length. }
  assert (Hf : first_qualifying uni_alnum text (length pre) (length tok))
    by (split; [done | intros j k; apply Hfirst]).
  split.
  + apply re_search_Some. exists (length pre), (length tok). by rewrite Hs.
  + rewrite handler_sends, (token_of_first chat text _ _ Hf). by rewrite Hs.
Qed.

End TokenClaims.

(** The leftmost qualifying run of a concrete text, read off the match. *)
Lemma first_qualifying_of_search uni_alnum text i tok :
  re_search uni_alnum TOKEN_RE text = Some {| m_start := i; m_group := tok |} →
  first_qualifying uni_alnum text i (length tok).
Proof. intros H. by apply re_search_first in H as [H _]. Qed.

Lemma token_run_forwarded_verbatim_witness :
  let w' := run (new_message_handler ascii_only steady_client ∅ (str "Drop") 99
                   (event_of 5 mixed_text)) world0 in
  qualifying ascii_only mixed_text 50 43 = true
  ∧ maximal_alnum_run mixed_text 3 42 = true
  ∧ (∃ j k, j ≤ 50 ∧ first_qualifying ascii_only mixed_text j k
       ∧ sends (calls w') = sends (calls world0) ++ [(99%Z, slice mixed_text j k)]
       ∧ (first_qualifying ascii_only mixed_text 50 43 → j = 50 ∧ k = 43))
  ∧ ∀ m, re_search ascii_only TOKEN_RE mixed_text = Some m → ¬ overlaps m 3 42.
Proof.
  pose proof (token_run_forwarded_verbatim ascii_only steady_client ∅ (str "Drop")
                99 5 mixed_text world0) as [H1 H2].
  split_and!.
  - vm_compute. reflexivity.
  - vm_compute. reflexivity.
  - apply H1. vm_compute. reflexivity.
  - apply (H2 3 42); [vm_compute; reflexivity | lia].
Defined.

Lemma at_most_one_send_per_message_witness :
  let relay := new_message_handler ascii_only steady_client ∅ (str "Drop") 99 in
  (message_text (event_of 5 two_tokens) = Some two_tokens
   ∧ first_qualifying ascii_only two_tokens 0 44
   ∧ qualifying ascii_only two_tokens 51 43 = true
   ∧ sends (calls (run (relay (event_of 5 two_tokens)) world0))
     = sends (calls world0) ++ [(99%Z, slice two_tokens 0 44)])
  ∧ (message_text (event_of 5 scenario_text) = Some scenario_text
     ∧ sends (calls (run (relay (event_of 5 scenario_text)) world0))
       = sends (calls world0))
  ∧ (truthy (message_text {| chat_id := 5; message_text := None |}) = false
     ∧ sends (calls (run (relay {| chat_id := 5; message_text := None |}) world0))
       = sends (calls world0)).
Proof.
  intros relay.
  assert (Hf : first_qualifying ascii_only two_tokens 0 44).
  { apply (first_qualifying_of_search ascii_only two_tokens 0 token44).
    vm_compute. reflexivity. }
  split_and!.
  - reflexivity.
  - exact Hf.
  - vm_compute. reflexivity.
  - apply (at_most_one_send_per_message ascii_only steady_client ∅ (str "Drop") 99
             (event_of 5 two_tokens) world0) with (j := 51) (k := 43);
      [reflexivity | exact Hf | vm_compute; reflexivity].
  - reflexivity.
  - apply (at_most_one_send_per_message ascii_only steady_client ∅ (str "Drop") 99
             (event_of 5 scenario_text) world0) with (text := scenario_text);
      [reflexivity|].
    apply re_search_None. vm_compute. reflexivity.
  - reflexivity.
  - apply (at_most_one_send_per_message ascii_only steady_client ∅ (str "Drop") 99
             {| chat_id := 5; message_text := None |} world0).
    reflexivity.
Defined.

(** C3 as stated fails: a 43-character run bounded by an underscore (a
    non-alphanumeric character) and the end of the string is not matched,
    and nothing is forwarded. *)
Lemma underscore_bounded_run_not_forwarded :
  length token43 = 43
  ∧ maximal_alnum_run underscored 3 43 = true
  ∧ char_before underscored 3 = Some 95%N
  ∧ ascii_alnum 95 = false
  ∧ re_search ascii_only TOKEN_RE underscored = None
  ∧ sends (calls (run (new_message_handler ascii_only steady_client ∅ (str "Drop") 99
                         (event_of 5 underscored)) world0)) = [].
Proof. vm_compute. repeat split. Qed.

Lemma run_between_non_word_characters_matches_witness :
  re_search ascii_only TOKEN_RE hyphenated
  = Some {| m_start := 3; m_group := token43 |}
  ∧ sends (calls (run (new_message_handler ascii_only steady_client ∅ (str "Drop") 99
                         (event_of 5 hyphenated)) world0))
    = sends (calls world0) ++ [(99%Z, token43)].
Proof.
  assert (Hf : first_qualifying ascii_only hyphenated 3 43).
  { apply (first_qualifying_of_search ascii_only hyphenated 3 token43).
    vm_compute. reflexivity. }
  apply (run_between_non_word_characters_matches ascii_only steady_client ∅
           (str "Drop") 99 (str "ca-") token43 [] 5 world0);
    [left; reflexivity | reflexivity | reflexivity | reflexivity |].
  intros j k Hq. by apply (proj2 Hf j k).
Defined.

(** ** The entity cache and the isolation of failures *)

Section CacheClaims.
Variable client : TelegramClient.

Local Abbreviation get_chat_name := (get_chat_name client).

(** C4, amended.  [get_chat_name] never raises, and it is idempotent once
    the chat is in the cache: after a call that found the chat cached or
    whose lookup succeeded (also when the entity has no title), a second call
    makes no request to the client, changes nothing and returns the same
    name.  A call makes at most one [get_entity] request, and none for a
    cached chat, so a chat is looked up successfully at most once.  A failed
    lookup stores nothing: the chat is cached after the call exactly when it
    was cached before or the lookup succeeded. *)
Theorem get_chat_name_idempotent_once_cached chat_id w :
  let r1 := outcome (get_chat_name chat_id) w in
  let w1 := run (get_chat_name chat_id) w in
  (∃ name, r1 = Return name)
  ∧ (chat_id ∈ dom (source_entities w1)
     ↔ chat_id ∈ dom (source_entities w)
       ∨ ∃ e, get_entity client (calls w) chat_id = Return e)
  ∧ (chat_id ∈ dom (source_entities w1) → get_chat_name chat_id w1 = (r1, w1))
  ∧ length (lookups (calls w1)) ≤ S (length (lookups (calls w)))
  ∧ (chat_id ∈ dom (source_entities w) → calls w1 = calls w)
  ∧ (∀ other,
       chat_id ∈ dom (source_entities w) →
       let w2 := run (get_chat_name other) w in
       chat_id ∈ dom (source_entities w2)
       ∧ ∃ new, calls w2 = calls w ++ new ∧ GetEntity chat_id ∉ new).
Proof.
  intros r1 w1. unfold r1, w1, outcome, run. clear r1 w1.
  split_and!.
  - destruct (get_chat_name_cases client chat_id w) as (name & w' & -> & _). eauto.
  - rewrite !elem_of_dom.
    destruct (source_entities w !! chat_id) as [e|] eqn:Hc.
    + rewrite (get_chat_name_cached client chat_id e w Hc). simpl. rewrite Hc.
      split; eauto.
    + destruct (get_entity client (calls w) chat_id) as [e|e] eqn:He.
      * rewrite (get_chat_name_fetched client chat_id e w Hc He). simpl.
        rewrite lookup_insert_eq. split; eauto.
      * rewrite (get_chat_name_failed client chat_id e w Hc He). simpl.
        rewrite Hc. split; [by intros [? ?]|]. intros [[? ?]|[? ?]]; done.
  - rewrite elem_of_dom.
    destruct (source_entities w !! chat_id) as [e|] eqn:Hc.
    + rewrite (get_chat_name_cached client chat_id e w Hc). simpl. intros _.
      by apply get_chat_name_cached.
    + destruct (get_entity client (calls w) chat_id) as [e|e] eqn:He.
      * rewrite (get_chat_name_fetched client chat_id e w Hc He). simpl. intros _.
        apply get_chat_name_cached. simpl. apply lookup_insert_eq.
      * rewrite (get_chat_name_failed client chat_id e w Hc He). simpl.
        rewrite Hc. by intros [? ?].
  - destruct (get_chat_name_cases client chat_id w) as (name & w' & -> & _ & _ & H).
    simpl. destruct H as [[-> _]|[-> _]]; [lia|].
    rewrite lookups_app, length_app. simpl. lia.
  - rewrite elem_of_dom. intros [e Hc].
    by rewrite (get_chat_name_cached client chat_id e w Hc).
  - intros other Hin.
    destruct (get_chat_name_cases client other w) as (name & w' & -> & _ & Hsub & H).
    simpl. split.
    + apply elem_of_dom in Hin as [e He]. apply elem_of_dom. exists e.
      by apply (lookup_weaken _ _ _ _ He).
    + destruct H as [[-> _]|[-> Hnone]].
      * exists []. split; [by rewrite app_nil_r | apply not_elem_of_nil].
      * exists [GetEntity other]. split; [done|].
        intros Hel%list_elem_of_singleton. injection Hel as <-.
        apply elem_of_dom in Hin as [e He]. congruence.
Qed.

End CacheClaims.

(** C4 as stated fails when the first lookup failed: the second call asks
    the client again, and may return another name. *)
Lemma failed_lookup_is_repeated :
  let w1 := run (get_chat_name flaky_client 7) world0 in
  let w2 := run (get_chat_name flaky_client 7) w1 in
  outcome (get_chat_name flaky_client 7) world0 = Return (str "Chat 7")
  ∧ outcome (get_chat_name flaky_client 7) w1 = Return (str "News")
  ∧ lookups (calls w1) = [7%Z]
  ∧ lookups (calls w2) = [7%Z; 7%Z].
Proof. vm_compute. repeat split. Qed.

Lemma get_chat_name_idempotent_once_cached_witness :
  let w1 := run (get_chat_name steady_client 7) world0 in
  (7%Z ∈ dom (source_entities w1))
  ∧ get_chat_name steady_client 7 w1 = (Return (str "News"), w1)
  ∧ length (lookups (calls w1)) ≤ 1.
Proof.
  intros w1.
  pose proof (get_chat_name_idempotent_once_cached steady_client 7 world0)
    as (_ & Hdom & Hsame & Hcount & _).
  assert (Hin : 7%Z ∈ dom (source_entities w1)).
  { apply Hdom. right. by eexists. }
  split_and!; [exact Hin | exact (Hsame Hin) | exact Hcount].
Defined.

Section IsolationClaims.
Variable uni_alnum : N → bool.
Variable client : TelegramClient.
Variable source_names : gmap Z pystr.
Variable dest_name : pystr.
Variable destination_chat_id : Z.
Variable source_chat_ids : list Z.

Local Abbreviation relay :=
  (new_message_handler uni_alnum client source_names dest_name destination_chat_id).
Local Abbreviation relay_try :=
  (new_message_handler_try uni_alnum client source_names dest_name
     destination_chat_id).
Local Abbreviation listen := (deliver source_chat_ids relay).

(** What a subscription asks the client to send for one event. *)
Local Abbreviation relayed := (λ event : Event,
  if bool_decide (chat_id event ∈ source_chat_ids)
  then forwards uni_alnum destination_chat_id event else []).

Lemma deliver_returns events : ∀ w,
  ∃ w', listen events w = (Return (), w')
        ∧ sends (calls w') = sends (calls w) ++ flat_map relayed events.
Proof.
  induction events as [|event rest IH]; intros w.
  - exists w. split; [done|]. simpl. by rewrite app_nil_r.
  - simpl. unfold mbind, M_bind.
    destruct (bool_decide (chat_id event ∈ source_chat_ids)).
    + destruct (handler_returns uni_alnum client source_names dest_name
                  destination_chat_id event w) as [w1 E].
      pose proof (handler_sends uni_alnum client source_names dest_name
                    destination_chat_id event w) as Hs.
      unfold run in Hs. rewrite E in Hs |- *. simpl in Hs.
      destruct (IH w1) as (w' & -> & Hs'). exists w'. split; [done|].
      rewrite Hs', Hs. unfold forwards. by rewrite <- app_assoc.
    + unfold mret, M_ret. destruct (IH w) as (w' & -> & Hs'). by exists w'.
Qed.

(** C9.  Whatever is raised while one message is processed, the callback
    catches it, logs it and returns normally: a failed entity lookup is
    caught and logged by [get_chat_name], anything else by the callback's own
    handler.  Delivery therefore goes on: the later messages are processed
    from the state the callback left, and for every delivered message of a
    subscribed chat that carries a token the send is asked for, whichever
    requests failed before. *)
Theorem message_failure_is_isolated event later w :
  (∃ w', relay event w = (Return (), w'))
  ∧ (∀ e w1, relay_try event w = (Raise e, w1) →
       relay event w
       = (Return (), add_log ERROR (str "Error processing message: " ++ exn_msg e) w1))
  ∧ (∀ e, source_entities w !! chat_id event = None →
       get_entity client (calls w) (chat_id event) = Raise e →
       (ERROR, str "Error getting entity " ++ str_of_int (chat_id event)
               ++ str ": " ++ exn_msg e) ∈ log (run (relay event) w))
  ∧ (∃ w', listen (event :: later) w = (Return (), w')
       ∧ sends (calls w') = sends (calls w) ++ flat_map relayed (event :: later))
  ∧ listen (event :: later) w = listen later (run (listen [event]) w).
Proof.
  split_and!.
  - apply handler_returns.
  - intros e w1 E. unfold new_message_handler, try_except. by rewrite E.
  - intros e Hc He.
    unfold run, new_message_handler, try_except, new_message_handler_try,
      mbind, M_bind.
    rewrite (get_chat_name_failed client _ e w Hc He).
    set (entry := (ERROR, _)).
    destruct (truthy (message_text event)); [|cbn; set_solver].
    destruct (re_search uni_alnum TOKEN_RE _) as [m|]; [|cbn; set_solver].
    unfold logger_info, logger_error, modify, client_send_message. cbn.
    destruct (send_message client _ _ _) as [[]|e']; cbn; set_solver.
  - apply deliver_returns.
  - simpl. unfold run, mbind, M_bind.
    destruct (bool_decide (chat_id event ∈ source_chat_ids)).
    + destruct (handler_returns uni_alnum client source_names dest_name
                  destination_chat_id event w) as [w1 ->]. done.
    + done.
Qed.

End IsolationClaims.

Lemma message_failure_is_isolated_witness :
  let relay := new_message_handler ascii_only muted_client ∅ (str "Drop") 99 in
  let relay_try := new_message_handler_try ascii_only muted_client ∅ (str "Drop") 99 in
  let flaky := new_message_handler ascii_only flaky_client ∅ (str "Drop") 99 in
  relay_try (event_of 5 prose43) world0
  = (Raise (Exn RPCError (str "CHAT_WRITE_FORBIDDEN")),
     run (relay_try (event_of 5 prose43)) world0)
  ∧ relay (event_of 5 prose43) world0
    = (Return (),
       add_log ERROR (str "Error processing message: " ++ str "CHAT_WRITE_FORBIDDEN")
         (run (relay_try (event_of 5 prose43)) world0))
  ∧ (ERROR, str "Error getting entity " ++ str_of_int 5 ++ str ": " ++ str "timeout")
    ∈ log (run (flaky (event_of 5 prose43)) world0)
  ∧ deliver [5%Z] relay [event_of 5 prose43; event_of 5 hyphenated] world0
    = deliver [5%Z] relay [event_of 5 hyphenated]
        (run (deliver [5%Z] relay [event_of 5 prose43]) world0).
Proof.
  intros relay relay_try flaky.
  assert (E : relay_try (event_of 5 prose43) world0
              = (Raise (Exn RPCError (str "CHAT_WRITE_FORBIDDEN")),
                 run (relay_try (event_of 5 prose43)) world0))
    by (vm_compute; reflexivity).
  pose proof (message_failure_is_isolated ascii_only muted_client ∅ (str "Drop") 99
                [5%Z] (event_of 5 prose43) [event_of 5 hyphenated] world0)
    as (_ & Hcaught & _ & _ & Hnext).
  pose proof (message_failure_is_isolated ascii_only flaky_client ∅ (str "Drop") 99
                [5%Z] (event_of 5 prose43) [] world0)
    as (_ & _ & Hlookup & _).
  split_and!.
  - exact E.
  - exact (Hcaught _ _ E).
  - exact (Hlookup (Exn RPCError (str "timeout")) eq_refl eq_refl).
  - exact Hnext.
Defined.

(** ** Properties of the config manager *)

(** Unfold the plumbing of the monad. *)
Ltac unfold_m :=
  unfold path_exists, open_read, json_load, config_get, config_setitem,
    write_json, chmod_600, logger_error, logger_info in *;
  unfold outcome, run, try_except, mbind, M_bind, mret, M_ret, raise, gets,
    modify in *;
  cbv beta.

Lemma load_credentials_missing w :
  config_file w = NoFile →
  load_credentials w = (Return (JNull, JNull, JNull), w).
Proof. intros H. unfold load_credentials, load_credentials_try. unfold_m. by rewrite H. Qed.

Lemma load_credentials_object p m w :
  config_file w = File p (Document (JObj m)) → readable p = true →
  load_credentials w
  = (Return (default JNull (m !! k_api_id), default JNull (m !! k_api_hash),
             default JNull (m !! k_phone_number)), w).
Proof.
  intros H Hr. unfold load_credentials, load_credentials_try. unfold_m.
  repeat (rewrite ?H, ?Hr; cbn). reflexivity.
Qed.

Lemma load_credentials_try_error w :
  read_error (config_file w) → ∃ e, load_credentials_try w = (Raise e, w).
Proof.
  intros H. unfold load_credentials_try. unfold_m.
  remember (config_file w) as f eqn:E.
  destruct H as [p c Hr|p raw|p j Hj]; rewrite <- !E; cbn.
  - rewrite Hr. by eexists.
  - destruct (readable p); by eexists.
  - destruct (readable p); [|by eexists].
    destruct j; try by eexists. by destruct (Hj m).
Qed.

Lemma load_chat_config_try_error w :
  read_error (config_file w) → ∃ e, load_chat_config_try w = (Raise e, w).
Proof.
  intros H. unfold load_chat_config_try. unfold_m.
  remember (config_file w) as f eqn:E.
  destruct H as [p c Hr|p raw|p j Hj]; rewrite <- !E; cbn.
  - rewrite Hr. by eexists.
  - destruct (readable p); by eexists.
  - destruct (readable p); [|by eexists].
    destruct j; try by eexists. by destruct (Hj m).
Qed.

Lemma save_chat_config_try_error now ids dest w :
  read_error (config_file w) →
  ∃ e, save_chat_config_try now ids dest w = (Raise e, w).
Proof.
  intros H. unfold save_chat_config_try. unfold_m.
  remember (config_file w) as f eqn:E.
  destruct H as [p c Hr|p raw|p j Hj]; rewrite <- !E; cbn.
  - rewrite Hr. by eexists.
  - destruct (readable p); by eexists.
  - destruct (readable p); [|by eexists].
    destruct j; try by eexists. by destruct (Hj m).
Qed.

(** A file is missing, fails to be read as an object, or holds one. *)
Lemma file_cases f :
  f = NoFile ∨ read_error f
  ∨ ∃ p m, f = File p (Document (JObj m)) ∧ readable p = true.
Proof.
  destruct f as [|p c]; [by left|]. right.
  destruct (readable p) eqn:Hr; [|left; by apply read_denied].
  destruct c as [j|raw]; [|left; apply read_garbled].
  destruct j; try (left; by apply read_not_object). right. eauto.
Qed.

Lemma load_chat_config_missing w :
  config_file w = NoFile → load_chat_config w = (Return (JNull, JNull), w).
Proof. intros H. unfold load_chat_config, load_chat_config_try. unfold_m. by rewrite H. Qed.

Lemma load_chat_config_object p m w :
  config_file w = File p (Document (JObj m)) → readable p = true →
  load_chat_config w
  = (Return (default JNull (m !! k_source_chat_ids),
             default JNull (m !! k_destination_chat_id)), w).
Proof.
  intros H Hr. unfold load_chat_config, load_chat_config_try. unfold_m.
  repeat (rewrite ?H, ?Hr; cbn). reflexivity.
Qed.

Lemma save_chat_config_object now ids dest p m w :
  config_file w = File p (Document (JObj m)) →
  readable p = true → writable p = true →
  save_chat_config now ids dest w
  = (Return (), set_config_file (File p (Document (JObj (merged now ids dest m)))) w).
Proof.
  intros H Hr Hw. unfold save_chat_config, save_chat_config_try. unfold_m.
  repeat (rewrite ?H, ?Hr, ?Hw; cbn). reflexivity.
Qed.

Lemma save_chat_config_missing now ids dest w :
  config_file w = NoFile → cwd_writable w = true →
  save_chat_config now ids dest w
  = (Return (),
     set_config_file (File fresh_perms (Document (JObj (merged now ids dest ∅)))) w).
Proof.
  intros H Hd. unfold save_chat_config, save_chat_config_try. unfold_m.
  repeat (rewrite ?H, ?Hd; cbn). reflexivity.
Qed.

(** Without a file, in a directory where none can be created, [open] raises
    and the handler logs. *)
Lemma save_chat_config_missing_denied now ids dest w :
  config_file w = NoFile → cwd_writable w = false →
  save_chat_config now ids dest w
  = (Return (),
     add_log ERROR (str "Error saving chat config: "
                    ++ exn_msg (permission_denied config_name)) w).
Proof.
  intros H Hd. unfold save_chat_config, save_chat_config_try. unfold_m.
  repeat (rewrite ?H, ?Hd; cbn). reflexivity.
Qed.

(** With an object in a file the process may read but not write, [open]
    for writing raises and the handler logs. *)
Lemma save_chat_config_object_denied now ids dest p m w :
  config_file w = File p (Document (JObj m)) →
  readable p = true → writable p = false →
  save_chat_config now ids dest w
  = (Return (),
     add_log ERROR (str "Error saving chat config: "
                    ++ exn_msg (permission_denied config_name)) w).
Proof.
  intros H Hr Hw. unfold save_chat_config, save_chat_config_try. unfold_m.
  repeat (rewrite ?H, ?Hr, ?Hw; cbn). reflexivity.
Qed.

Lemma key_distinct :
  k_source_chat_ids ≠ k_destination_chat_id
  ∧ k_source_chat_ids ≠ k_last_updated
  ∧ k_destination_chat_id ≠ k_last_updated.
Proof. split_and!; by vm_compute. Qed.

Lemma merged_lookup now ids dest m :
  merged now ids dest m !! k_source_chat_ids = Some (JList (JInt <$> ids))
  ∧ merged now ids dest m !! k_destination_chat_id = Some (JInt dest)
  ∧ merged now ids dest m !! k_last_updated = Some (JStr now)
  ∧ ∀ key, key ≠ k_source_chat_ids → key ≠ k_destination_chat_id →
           key ≠ k_last_updated → merged now ids dest m !! key = m !! key.
Proof.
  destruct key_distinct as (H1 & H2 & H3). unfold merged. split_and!.
  - rewrite lookup_insert_ne by congruence.
    rewrite lookup_insert_ne by congruence. apply lookup_insert_eq.
  - rewrite lookup_insert_ne by congruence. apply lookup_insert_eq.
  - apply lookup_insert_eq.
  - intros key ???. by rewrite !lookup_insert_ne by congruence.
Qed.


(** ** The config file *)

Section ConfigClaims.

(** C5, amended.  When the config file is missing and the process can
    create it, or holds a JSON object in a file the process may read and
    write, [load_chat_config] after [save_chat_config ids dest] returns the
    pair just saved, and changes nothing. *)
Theorem save_then_load_chat_config now ids dest w :
  (config_file w = NoFile ∧ cwd_writable w = true)
  ∨ (holds_object (config_file w) = true ∧ can_read (config_file w) = true
     ∧ can_write w = true) →
  let w1 := run (save_chat_config now ids dest) w in
  outcome (save_chat_config now ids dest) w = Return ()
  ∧ load_chat_config w1 = (Return (JList (JInt <$> ids), JInt dest), w1).
Proof.
  intros H w1. unfold w1, outcome, run. clear w1. unfold can_write in H.
  destruct (config_file w) as [|p [[]|]] eqn:Hf;
    try (by destruct H as [[[=] _]|[[=] _]]).
  - destruct H as [[_ Hd]|[[=] _]].
    rewrite (save_chat_config_missing now ids dest w Hf Hd). simpl.
    split; [done|].
    rewrite (load_chat_config_object fresh_perms (merged now ids dest ∅)) by done.
    destruct (merged_lookup now ids dest ∅) as (-> & -> & _). done.
  - destruct H as [[[=] _]|(_ & Hr & Hw)]. simpl in Hr, Hw.
    rewrite (save_chat_config_object now ids dest p m w Hf Hr Hw). simpl.
    split; [done|].
    rewrite (load_chat_config_object p (merged now ids dest m)) by done.
    destruct (merged_lookup now ids dest m) as (-> & -> & _). done.
Qed.

(** C6, amended.  When the existing config file holds a JSON object and the
    process may read and write the file, [save_chat_config ids dest] leaves
    every field other than the three it sets, the credentials among them, as
    it was, sets [source_chat_ids] to [ids] and [destination_chat_id] to
    [dest], and sets [last_updated] to the current time. *)
Theorem save_chat_config_keeps_credentials now ids dest p m w :
  config_file w = File p (Document (JObj m)) →
  readable p = true → writable p = true →
  let f' := config_file (run (save_chat_config now ids dest) w) in
  f' = File p (Document (JObj (merged now ids dest m)))
  ∧ field f' k_api_id = m !! k_api_id
  ∧ field f' k_api_hash = m !! k_api_hash
  ∧ field f' k_phone_number = m !! k_phone_number
  ∧ field f' k_source_chat_ids = Some (JList (JInt <$> ids))
  ∧ field f' k_destination_chat_id = Some (JInt dest)
  ∧ field f' k_last_updated = Some (JStr now)
  ∧ ∀ key, key ≠ k_source_chat_ids → key ≠ k_destination_chat_id →
           key ≠ k_last_updated → field f' key = m !! key.
Proof.
  intros Hf Hr Hw f'. unfold f', run. clear f'.
  rewrite (save_chat_config_object now ids dest p m w Hf Hr Hw). simpl.
  destruct (merged_lookup now ids dest m) as (H1 & H2 & H3 & H4).
  split_and!; try done; apply H4; by vm_compute.
Qed.

Section Platform.
Variable os_name : pystr.

Lemma credentials_lookup a h ph :
  credentials a h ph !! k_api_id = Some (JStr a)
  ∧ credentials a h ph !! k_api_hash = Some (JStr h)
  ∧ credentials a h ph !! k_phone_number = Some (JStr ph)
  ∧ ∀ key, key ≠ k_api_id → key ≠ k_api_hash → key ≠ k_phone_number →
           credentials a h ph !! key = None.
Proof.
  unfold credentials. split_and!.
  - apply lookup_insert_eq.
  - rewrite lookup_insert_ne by (by vm_compute). apply lookup_insert_eq.
  - rewrite !lookup_insert_ne by (by vm_compute). apply lookup_insert_eq.
  - intros key ???. rewrite !lookup_insert_ne by congruence. apply lookup_empty.
Qed.

(** C7, amended.  [save_credentials] replaces the whole content of a config
    file the process may write, and creates a missing file where the process
    may create one: afterwards the file holds the object with the three
    credential fields, equal to the arguments, and no other field;
    chat-configuration fields stored before are gone. *)
Theorem save_credentials_replaces_content api_id api_hash phone_number w :
  can_write w = true →
  let w' := run (save_credentials os_name api_id api_hash phone_number) w in
  outcome (save_credentials os_name api_id api_hash phone_number) w = Return ()
  ∧ (∃ p, config_file w'
          = File p (Document (JObj (credentials api_id api_hash phone_number))))
  ∧ field (config_file w') k_api_id = Some (JStr api_id)
  ∧ field (config_file w') k_api_hash = Some (JStr api_hash)
  ∧ field (config_file w') k_phone_number = Some (JStr phone_number)
  ∧ field (config_file w') k_source_chat_ids = None
  ∧ field (config_file w') k_destination_chat_id = None
  ∧ field (config_file w') k_last_updated = None.
Proof.
  intros Hw w'.
  assert (outcome (save_credentials os_name api_id api_hash phone_number) w = Return ()
          ∧ ∃ p, config_file w'
                 = File p (Document (JObj (credentials api_id api_hash phone_number))))
    as [Hout [p Hp]].
  { unfold w', save_credentials, save_credentials_try. unfold can_write in Hw.
    unfold_m.
    destruct (config_file w) as [|p c] eqn:Hf; cbn.
    - rewrite Hw. cbn. destruct (bool_decide (os_name ≠ str "nt")); cbn; eauto.
    - rewrite Hw. cbn.
      destruct (bool_decide (os_name ≠ str "nt")); cbn; [|eauto].
      destruct (owned p); cbn; eauto. }
  destruct (credentials_lookup api_id api_hash phone_number) as (H1 & H2 & H3 & H4).
  rewrite Hp. simpl.
  split_and!; try done; try (by eexists); apply H4; by vm_compute.
Qed.

End Platform.

(** C8.  The loaders never raise.  [load_credentials] returns
    [(None, None, None)] when the file is missing or cannot be read as a
    config object, and the stored values, [None] for an absent key,
    otherwise; [load_chat_config] returns [(None, None)] when the file is
    missing, when the keys are missing, or when the read fails.  Whenever the
    body of a loader raises, the handler logs the error and the absent values
    are returned; the file is never touched. *)
Theorem loaders_never_raise w :
  let f := config_file w in
  ((∃ v, outcome load_credentials w = Return v)
   ∧ (∃ v, outcome load_chat_config w = Return v)
   ∧ config_file (run load_credentials w) = f
   ∧ config_file (run load_chat_config w) = f)
  ∧ (f = NoFile →
     load_credentials w = (Return (JNull, JNull, JNull), w)
     ∧ load_chat_config w = (Return (JNull, JNull), w))
  ∧ (read_error f →
     (∃ e, load_credentials_try w = (Raise e, w)
           ∧ load_credentials w
             = (Return (JNull, JNull, JNull),
                add_log ERROR (str "Error loading credentials: " ++ exn_msg e) w))
     ∧ (∃ e, load_chat_config_try w = (Raise e, w)
             ∧ load_chat_config w
               = (Return (JNull, JNull),
                  add_log ERROR (str "Error loading chat config: " ++ exn_msg e) w)))
  ∧ (holds_object f = true → can_read f = true →
     load_credentials w
     = (Return (stored f k_api_id, stored f k_api_hash, stored f k_phone_number), w)
     ∧ load_chat_config w
       = (Return (stored f k_source_chat_ids, stored f k_destination_chat_id), w)
     ∧ (field f k_source_chat_ids = None → field f k_destination_chat_id = None →
        outcome load_chat_config w = Return (JNull, JNull)))
  ∧ (∀ e w1, load_credentials_try w = (Raise e, w1) →
       load_credentials w
       = (Return (JNull, JNull, JNull),
          add_log ERROR (str "Error loading credentials: " ++ exn_msg e) w1))
  ∧ (∀ e w1, load_chat_config_try w = (Raise e, w1) →
       load_chat_config w
       = (Return (JNull, JNull),
          add_log ERROR (str "Error loading chat config: " ++ exn_msg e) w1)).
Proof.
  intros f.
  assert (Hcred : ∀ e w1, load_credentials_try w = (Raise e, w1) →
            load_credentials w
            = (Return (JNull, JNull, JNull),
               add_log ERROR (str "Error loading credentials: " ++ exn_msg e) w1)).
  { intros e w1 E. unfold load_credentials, try_except. by rewrite E. }
  assert (Hchat : ∀ e w1, load_chat_config_try w = (Raise e, w1) →
            load_chat_config w
            = (Return (JNull, JNull),
               add_log ERROR (str "Error loading chat config: " ++ exn_msg e) w1)).
  { intros e w1 E. unfold load_chat_config, try_except. by rewrite E. }
  assert (Hmiss : f = NoFile →
            load_credentials w = (Return (JNull, JNull, JNull), w)
            ∧ load_chat_config w = (Return (JNull, JNull), w)).
  { intros Hf. split; [by apply load_credentials_missing
                      | by apply load_chat_config_missing]. }
  assert (Herr : read_error f →
            (∃ e, load_credentials_try w = (Raise e, w)
                  ∧ load_credentials w
                    = (Return (JNull, JNull, JNull),
                       add_log ERROR (str "Error loading credentials: " ++ exn_msg e) w))
            ∧ (∃ e, load_chat_config_try w = (Raise e, w)
                    ∧ load_chat_config w
                      = (Return (JNull, JNull),
                         add_log ERROR (str "Error loading chat config: " ++ exn_msg e)
                           w))).
  { intros Hf. split.
    - destruct (load_credentials_try_error w Hf) as [e E]. exists e. eauto.
    - destruct (load_chat_config_try_error w Hf) as [e E]. exists e. eauto. }
  assert (Hobj : ∀ p m, f = File p (Document (JObj m)) → readable p = true →
            load_credentials w
            = (Return (stored f k_api_id, stored f k_api_hash, stored f k_phone_number),
               w)
            ∧ load_chat_config w
              = (Return (stored f k_source_chat_ids, stored f k_destination_chat_id),
                 w)).
  { intros p m Hf Hr. rewrite Hf. unfold stored, field. split.
    - by apply (load_credentials_object p m).
    - by apply (load_chat_config_object p m). }
  split_and!; [| | | |done|..]; try done.
  - destruct (file_cases f) as [Hf|[Hf|(p & m & Hf & Hr)]].
    + destruct (Hmiss Hf) as [E _]. unfold outcome. rewrite E. eauto.
    + destruct (Herr Hf) as [(e & _ & E) _]. unfold outcome. rewrite E. eauto.
    + destruct (Hobj p m Hf Hr) as [E _]. unfold outcome. rewrite E. eauto.
  - destruct (file_cases f) as [Hf|[Hf|(p & m & Hf & Hr)]].
    + destruct (Hmiss Hf) as [_ E]. unfold outcome. rewrite E. eauto.
    + destruct (Herr Hf) as [_ (e & _ & E)]. unfold outcome. rewrite E. eauto.
    + destruct (Hobj p m Hf Hr) as [_ E]. unfold outcome. rewrite E. eauto.
  - destruct (file_cases f) as [Hf|[Hf|(p & m & Hf & Hr)]].
    + destruct (Hmiss Hf) as [E _]. unfold run. by rewrite E.
    + destruct (Herr Hf) as [(e & _ & E) _]. unfold run. by rewrite E.
    + destruct (Hobj p m Hf Hr) as [E _]. unfold run. by rewrite E.
  - destruct (file_cases f) as [Hf|[Hf|(p & m & Hf & Hr)]].
    + destruct (Hmiss Hf) as [_ E]. unfold run. by rewrite E.
    + destruct (Herr Hf) as [_ (e & _ & E)]. unfold run. by rewrite E.
    + destruct (Hobj p m Hf Hr) as [_ E]. unfold run. by rewrite E.
  - intros Ho Hr. destruct f as [|p [[]|]] eqn:Hf; try done. simpl in Hr.
    destruct (Hobj p m eq_refl Hr) as [E1 E2]. split_and!; [done | done |].
    intros Hs Hd. unfold outcome. rewrite E2. unfold stored. by rewrite Hs, Hd.
Qed.

(** C10.  When the config file exists and reading or parsing it raises,
    [save_chat_config] catches the exception, logs it and returns without
    writing: the file is left as it was. *)
Theorem save_chat_config_read_error_no_write now ids dest p c w :
  config_file w = File p c →
  readable p = false ∨ (∃ raw, c = Garbled raw) →
  ∃ e, save_chat_config_try now ids dest w = (Raise e, w)
    ∧ save_chat_config now ids dest w
      = (Return (), add_log ERROR (str "Error saving chat config: " ++ exn_msg e) w)
    ∧ config_file (run (save_chat_config now ids dest) w) = File p c.
Proof.
  intros Hf Hbad.
  assert (Herr : read_error (config_file w)).
  { rewrite Hf. destruct Hbad as [Hr|[raw ->]];
      [by apply read_denied | apply read_garbled]. }
  destruct (save_chat_config_try_error now ids dest w Herr) as [e E].
  exists e. split; [done|].
  assert (save_chat_config now ids dest w
          = (Return (), add_log ERROR (str "Error saving chat config: " ++ exn_msg e) w))
    as E' by (unfold save_chat_config, try_except; by rewrite E).
  split; [done|]. unfold run. by rewrite E'.
Qed.

End ConfigClaims.

(** C5 as stated fails on a file that is not valid JSON: nothing is saved,
    and the load returns [(None, None)]. *)
Lemma garbled_file_breaks_round_trip :
  let w1 := run (save_chat_config stamp [11; 22]%Z 99) garbled in
  outcome load_chat_config w1 = Return (JNull, JNull)
  ∧ outcome load_chat_config w1 ≠ Return (JList (JInt <$> [11; 22]%Z), JInt 99).
Proof. vm_compute. split; [reflexivity | discriminate]. Qed.

Lemma save_then_load_chat_config_witness :
  let w := on_disk (Document (JObj credentials_only)) in
  let w1 := run (save_chat_config stamp [11; 22]%Z 99) w in
  (holds_object (config_file w) = true ∧ can_read (config_file w) = true
   ∧ can_write w = true)
  ∧ outcome (save_chat_config stamp [11; 22]%Z 99) w = Return ()
  ∧ load_chat_config w1 = (Return (JList (JInt <$> [11; 22]%Z), JInt 99), w1).
Proof.
  intros w w1.
  assert (H : holds_object (config_file w) = true ∧ can_read (config_file w) = true
              ∧ can_write w = true) by (repeat split; reflexivity).
  split; [exact H|].
  exact (save_then_load_chat_config stamp [11; 22]%Z 99 w (or_intror H)).
Defined.

(** C6 as stated fails on a file that is not valid JSON: the file is left
    as it was, so [source_chat_ids] is not set. *)
Lemma garbled_file_gets_no_chat_fields :
  let f' := config_file (run (save_chat_config stamp [11; 22]%Z 99) garbled) in
  f' = config_file garbled
  ∧ field f' k_source_chat_ids = None
  ∧ field f' k_source_chat_ids ≠ Some (JList (JInt <$> [11; 22]%Z)).
Proof. vm_compute. split_and!; [reflexivity | reflexivity | discriminate]. Qed.

(** The scenario of the spec. *)
Lemma save_chat_config_keeps_credentials_witness :
  let w := on_disk (Document (JObj credentials_only)) in
  let f' := config_file (run (save_chat_config stamp [11; 22]%Z 99) w) in
  field f' k_api_id = credentials_only !! k_api_id
  ∧ field f' k_api_hash = credentials_only !! k_api_hash
  ∧ field f' k_phone_number = credentials_only !! k_phone_number
  ∧ field f' k_source_chat_ids = Some (JList (JInt <$> [11; 22]%Z))
  ∧ field f' k_destination_chat_id = Some (JInt 99)
  ∧ field f' k_last_updated = Some (JStr stamp).
Proof.
  intros w f'.
  pose proof (save_chat_config_keeps_credentials stamp [11; 22]%Z 99 fresh_perms
                credentials_only w eq_refl eq_refl eq_refl)
    as (_ & H1 & H2 & H3 & H4 & H5 & H6 & _).
  split_and!; assumption.
Defined.

(** C7 as stated fails: the chat configuration stored before is gone after
    [save_credentials]. *)
Lemma save_credentials_drops_chat_fields :
  let w := on_disk (Document (JObj chats_only)) in
  let f' := config_file (run (save_credentials (str "posix") (str "1") (str "h")
                                (str "+100")) w) in
  field (config_file w) k_source_chat_ids = Some (JList [JInt 11; JInt 22])
  ∧ field (config_file w) k_destination_chat_id = Some (JInt 99)
  ∧ field f' k_source_chat_ids = None
  ∧ field f' k_destination_chat_id = None
  ∧ field f' k_last_updated = None.
Proof. vm_compute. repeat split. Qed.

Lemma save_credentials_replaces_content_witness :
  let w := on_disk (Document (JObj chats_only)) in
  let w' := run (save_credentials (str "posix") (str "1") (str "h") (str "+100")) w in
  can_write w = true
  ∧ (∃ p, config_file w'
          = File p (Document (JObj (credentials (str "1") (str "h") (str "+100")))))
  ∧ field (config_file w') k_api_id = Some (JStr (str "1"))
  ∧ field (config_file w') k_source_chat_ids = None.
Proof.
  intros w w'.
  pose proof (save_credentials_replaces_content (str "posix") (str "1") (str "h")
                (str "+100") w eq_refl) as (_ & H1 & H2 & _ & _ & H3 & _).
  split_and!; [reflexivity | exact H1 | exact H2 | exact H3].
Defined.

Lemma loaders_never_raise_witness :
  (load_credentials world0 = (Return (JNull, JNull, JNull), world0)
   ∧ load_chat_config world0 = (Return (JNull, JNull), world0))
  ∧ (read_error (config_file garbled)
     ∧ ∃ e, load_credentials garbled
            = (Return (JNull, JNull, JNull),
               add_log ERROR (str "Error loading credentials: " ++ exn_msg e) garbled))
  ∧ (let w := on_disk (Document (JObj credentials_only)) in
     load_credentials w
     = (Return (stored (config_file w) k_api_id, stored (config_file w) k_api_hash,
                stored (config_file w) k_phone_number), w)
     ∧ outcome load_chat_config w = Return (JNull, JNull)).
Proof.
  split; [|split; [split|]].
  - exact (proj1 (proj2 (loaders_never_raise world0)) eq_refl).
  - apply read_garbled.
  - destruct (proj1 (proj2 (proj2 (loaders_never_raise garbled)))
                (read_garbled fresh_perms (str "{not json")))
      as [(e & _ & E) _].
    by exists e.
  - intros w.
    destruct (proj1 (proj2 (proj2 (proj2 (loaders_never_raise w)))) eq_refl eq_refl)
      as (E1 & _ & E3).
    split; [exact E1 | apply E3; reflexivity].
Defined.

Lemma save_chat_config_read_error_no_write_witness :
  ∃ e, save_chat_config stamp [11; 22]%Z 99 garbled
       = (Return (), add_log ERROR (str "Error saving chat config: " ++ exn_msg e) garbled)
     ∧ config_file (run (save_chat_config stamp [11; 22]%Z 99) garbled)
       = File fresh_perms (Garbled (str "{not json")).
Proof.
  destruct (save_chat_config_read_error_no_write stamp [11; 22]%Z 99 fresh_perms
              (Garbled (str "{not json")) garbled eq_refl
              (or_intror (ex_intro _ (str "{not json") eq_refl)))
    as (e & _ & E1 & E2).
  exists e. split; [exact E1 | exact E2].
Defined.

(** ** More on the config manager: what the savers write, and when *)

(** [str(e)] of the two errors of the savers, as the log shows them. *)
Lemma permission_denied_text :
  exn_msg (permission_denied config_name)
  = str "[Errno 13] Permission denied: 'telegram_config.json'".
Proof. reflexivity. Qed.

Lemma not_permitted_text :
  exn_msg (not_permitted config_name)
  = str "[Errno 1] Operation not permitted: 'telegram_config.json'".
Proof. reflexivity. Qed.

Section SaverFacts.
Variable os_name : pystr.

(** [save_credentials], case by case. *)
Lemma save_credentials_cases api_id api_hash phone_number w :
  let doc := Document (JObj (credentials api_id api_hash phone_number)) in
  save_credentials os_name api_id api_hash phone_number w
  = if can_write w then
      if bool_decide (os_name ≠ str "nt") then
        if is_owned (config_file w) || negb (holds_file (config_file w))
        then (Return (), set_config_file (File fresh_perms doc) w)
        else (Return (),
              add_log ERROR (str "Error saving credentials: "
                             ++ exn_msg (not_permitted config_name))
                (set_config_file (File (perms_of (config_file w)) doc) w))
      else (Return (), set_config_file (File (perms_of (config_file w)) doc) w)
    else (Return (),
          add_log ERROR (str "Error saving credentials: "
                         ++ exn_msg (permission_denied config_name)) w).
Proof.
  intros doc. unfold save_credentials, save_credentials_try, can_write. unfold_m.
  destruct w as [se cs f cw lg]. cbn.
  destruct f as [|p c]; cbn.
  - destruct cw; cbn; [|reflexivity].
    destruct (bool_decide (os_name ≠ str "nt")); reflexivity.
  - destruct (writable p); cbn; [|reflexivity].
    destruct (bool_decide (os_name ≠ str "nt")); cbn; [|reflexivity].
    destruct (owned p); reflexivity.
Qed.

End SaverFacts.

(** [save_chat_config] in a state where it writes. *)
Lemma save_chat_config_savable now ids dest w :
  chat_config_savable (config_file w) = true → can_write w = true →
  save_chat_config now ids dest w
  = (Return (),
     set_config_file
       (File (perms_of (config_file w))
          (Document (JObj (merged now ids dest (object_of (config_file w)))))) w).
Proof.
  unfold can_write. intros Hs Hc.
  destruct (config_file w) as [|p [[]|]] eqn:Hf; try done.
  - by apply save_chat_config_missing.
  - simpl in Hs. apply andb_true_iff in Hs as [Hr Hw].
    by apply save_chat_config_object.
Qed.

(** [save_chat_config] in any other state: the body raises before it has
    changed anything. *)
Lemma save_chat_config_not_savable now ids dest w :
  chat_config_savable (config_file w) && can_write w = false →
  ∃ e, save_chat_config now ids dest w
       = (Return (), add_log ERROR (str "Error saving chat config: " ++ exn_msg e) w).
Proof.
  unfold can_write. intros Hs.
  destruct (file_cases (config_file w)) as [Hf|[Hf|(p & m & Hf & Hr)]].
  - rewrite Hf in Hs. simpl in Hs. eexists.
    by apply save_chat_config_missing_denied.
  - destruct (save_chat_config_try_error now ids dest w Hf) as [e E].
    exists e. unfold save_chat_config, try_except. by rewrite E.
  - rewrite Hf in Hs. simpl in Hs. rewrite Hr in Hs. simpl in Hs.
    apply andb_false_iff in Hs as [Hs|Hs]; eexists;
      by apply (save_chat_config_object_denied now ids dest p m).
Qed.

Lemma merged_merged now ids dest now' ids' dest' m :
  merged now' ids' dest' (merged now ids dest m) = merged now' ids' dest' m.
Proof.
  destruct key_distinct as (H1 & H2 & H3).
  apply map_eq. intros key.
  destruct (merged_lookup now' ids' dest' (merged now ids dest m)) as (E1 & E2 & E3 & E4).
  destruct (merged_lookup now' ids' dest' m) as (F1 & F2 & F3 & F4).
  destruct (merged_lookup now ids dest m) as (_ & _ & _ & G4).
  destruct (decide (key = k_source_chat_ids)) as [->|?]; [by rewrite E1, F1|].
  destruct (decide (key = k_destination_chat_id)) as [->|?]; [by rewrite E2, F2|].
  destruct (decide (key = k_last_updated)) as [->|?]; [by rewrite E3, F3|].
  by rewrite E4, F4, G4.
Qed.

Lemma merged_credentials_lookup now ids dest a h ph :
  merged now ids dest (credentials a h ph) !! k_api_id = Some (JStr a)
  ∧ merged now ids dest (credentials a h ph) !! k_api_hash = Some (JStr h)
  ∧ merged now ids dest (credentials a h ph) !! k_phone_number = Some (JStr ph).
Proof.
  destruct (merged_lookup now ids dest (credentials a h ph)) as (_ & _ & _ & H).
  destruct (credentials_lookup a h ph) as (H1 & H2 & H3 & _).
  rewrite !H by (by vm_compute). done.
Qed.

(** Where the process may not create the config file, neither saver
    writes, each logs the refusal of [open], and the loaders find nothing. *)
Lemma read_only_directory_saves_nothing :
  let w1 := run (save_credentials (str "posix") (str "1") (str "h") (str "+100"))
              read_only_dir in
  let w2 := run (save_chat_config stamp [11; 22]%Z 99) w1 in
  config_file w2 = NoFile
  ∧ log w2
    = [(ERROR, str "Error saving credentials: [Errno 13] Permission denied: 'telegram_config.json'");
       (ERROR, str "Error saving chat config: [Errno 13] Permission denied: 'telegram_config.json'")]
  ∧ outcome load_credentials w2 = Return (JNull, JNull, JNull)
  ∧ outcome load_chat_config w2 = Return (JNull, JNull).
Proof. vm_compute. repeat split. Qed.

Section SaverProperties.
Variable os_name : pystr.

(** The file [save_credentials] leaves when it may write. *)
Lemma save_credentials_file a h ph w :
  can_write w = true →
  ∃ p, config_file (run (save_credentials os_name a h ph) w)
       = File p (Document (JObj (credentials a h ph)))
     ∧ (readable p = true ↔
        config_file w = NoFile ∨ can_read (config_file w) = true
        ∨ (os_name ≠ str "nt" ∧ is_owned (config_file w) = true))
     ∧ (writable p = true).
Proof.
  intros Hw. unfold run. rewrite save_credentials_cases, Hw.
  unfold can_write in Hw.
  destruct (config_file w) as [|p c] eqn:Hf; simpl.
  - exists fresh_perms. split; [by case_bool_decide|].
    split; [|done]. split; [by left | done].
  - rewrite orb_false_r. case_bool_decide as Hos.
    + destruct (owned p) eqn:Ho.
      * exists fresh_perms. split; [done|]. split; [|done].
        split; [by right; right | done].
      * exists p. split; [done|]. split; [|done].
        split; [by right; left|]. intros [?|[?|[_ ?]]]; done.
    + exists p. split; [done|]. split; [|done].
      split; [by right; left|]. intros [?|[?|[? _]]]; done.
Qed.

(** X1.  Credentials come back as saved: when the process may write the
    config file, or create it where there is none, and can read it
    afterwards (it is new, or it was readable already, or the process owns it
    and runs a system on which [save_credentials] resets the permissions),
    [load_credentials] after [save_credentials] returns the three strings
    just saved, and changes nothing. *)
Theorem save_then_load_credentials api_id api_hash phone_number w :
  can_write w = true →
  config_file w = NoFile ∨ can_read (config_file w) = true
  ∨ (os_name ≠ str "nt" ∧ is_owned (config_file w) = true) →
  let w1 := run (save_credentials os_name api_id api_hash phone_number) w in
  load_credentials w1
  = (Return (JStr api_id, JStr api_hash, JStr phone_number), w1).
Proof.
  intros Hw Hr w1.
  destruct (save_credentials_file api_id api_hash phone_number w Hw)
    as (p & Hf & Hread & _).
  rewrite (load_credentials_object p (credentials api_id api_hash phone_number) w1 Hf)
    by by apply Hread.
  destruct (credentials_lookup api_id api_hash phone_number) as (-> & -> & -> & _).
  done.
Qed.

(** X2.  [save_credentials] never raises, and it writes exactly when
    [open] for writing succeeds: the process may write the file, or there is
    none and the process may create it.  Then the file holds the three
    credentials and nothing else.  Otherwise the file is left as it was, a
    missing file stays missing, and the refusal of [open] is logged. *)
Theorem save_credentials_writes_or_logs api_id api_hash phone_number w :
  let w' := run (save_credentials os_name api_id api_hash phone_number) w in
  outcome (save_credentials os_name api_id api_hash phone_number) w = Return ()
  ∧ (if can_write w
     then ∃ p, config_file w'
               = File p (Document (JObj (credentials api_id api_hash phone_number)))
     else config_file w' = config_file w
          ∧ log w'
            = log w
              ++ [(ERROR, str "Error saving credentials: [Errno 13] Permission denied: 'telegram_config.json'")]).
Proof.
  intros w'. unfold w', outcome, run. rewrite save_credentials_cases.
  destruct (can_write w); [|done].
  case_bool_decide; [|split; [done | by eexists]].
  destruct (is_owned _ || negb _); split; try done; by eexists.
Qed.

(** X3.  Where [save_credentials] resets the permissions (any system but
    Windows) and the process may write a file it does not own, the
    credentials are written all the same, the permissions stay as they were,
    and the failed [chmod] is logged as an error of saving. *)
Theorem save_credentials_chmod_failure api_id api_hash phone_number p c w :
  config_file w = File p c →
  writable p = true → owned p = false → os_name ≠ str "nt" →
  save_credentials os_name api_id api_hash phone_number w
  = (Return (),
     add_log ERROR
       (str "Error saving credentials: [Errno 1] Operation not permitted: 'telegram_config.json'")
       (set_config_file
          (File p (Document (JObj (credentials api_id api_hash phone_number)))) w)).
Proof.
  intros Hf Hw Ho Hos. rewrite save_credentials_cases. unfold can_write.
  rewrite Hf. simpl. rewrite Hw, Ho. simpl. by rewrite bool_decide_eq_true_2.
Qed.

(** X4.  The first run and the first forwarding session: after
    [save_credentials] and then [save_chat_config], on a config file the
    process may read and write, or on none where the process may create
    one, both loaders return what was saved: saving the chat configuration
    keeps the credentials. *)
Theorem credentials_survive_chat_config api_id api_hash phone_number now ids dest w :
  (config_file w = NoFile ∧ cwd_writable w = true)
  ∨ (can_read (config_file w) = true ∧ can_write w = true) →
  let w1 := run (save_credentials os_name api_id api_hash phone_number) w in
  let w2 := run (save_chat_config now ids dest) w1 in
  load_credentials w2 = (Return (JStr api_id, JStr api_hash, JStr phone_number), w2)
  ∧ load_chat_config w2 = (Return (JList (JInt <$> ids), JInt dest), w2).
Proof.
  intros H w1 w2.
  assert (Hw : can_write w = true).
  { destruct H as [[Hf Hd]|[_ ?]]; [|done]. unfold can_write. by rewrite Hf. }
  destruct (save_credentials_file api_id api_hash phone_number w Hw)
    as (p & Hf & Hread & Hwrite).
  assert (Hr : readable p = true).
  { apply Hread. destruct H as [[? _]|[? _]]; eauto. }
  fold w1 in Hf.
  assert (Hf2 : config_file w2
                = File p (Document (JObj (merged now ids dest
                                            (credentials api_id api_hash phone_number))))).
  { unfold w2, run.
    by rewrite (save_chat_config_object now ids dest p _ w1 Hf Hr Hwrite). }
  split.
  - rewrite (load_credentials_object p _ w2 Hf2 Hr).
    destruct (merged_credentials_lookup now ids dest api_id api_hash phone_number)
      as (-> & -> & ->).
    done.
  - rewrite (load_chat_config_object p _ w2 Hf2 Hr).
    destruct (merged_lookup now ids dest (credentials api_id api_hash phone_number))
      as (-> & -> & _).
    done.
Qed.

End SaverProperties.

(** X5.  [save_chat_config] never raises, and it writes in two states
    only: with no file, where the process may create one, and with an object
    in a file the process may read and write.  Then the file holds the object
    it read with the three chat fields set, and nothing is logged.  In every
    other state (no file and no right to create one, an unreadable or
    read-only file, text that is not JSON, JSON that is not an object) [open],
    [json.load] or the assignment raises: the file is left as it was, a
    missing file stays missing, and one error is logged; for the file that
    cannot be created it is the refusal of [open]. *)
Theorem save_chat_config_writes_or_logs now ids dest w :
  let f := config_file w in
  let w' := run (save_chat_config now ids dest) w in
  outcome (save_chat_config now ids dest) w = Return ()
  ∧ (if chat_config_savable f && can_write w
     then config_file w'
          = File (perms_of f) (Document (JObj (merged now ids dest (object_of f))))
          ∧ log w' = log w
     else config_file w' = f
          ∧ ∃ e, log w' = log w ++ [(ERROR, str "Error saving chat config: "
                                            ++ exn_msg e)])
  ∧ (f = NoFile → cwd_writable w = false →
     log w'
     = log w
       ++ [(ERROR, str "Error saving chat config: [Errno 13] Permission denied: 'telegram_config.json'")]).
Proof.
  intros f w'. unfold w', outcome, run. split_and!.
  - destruct (chat_config_savable f && can_write w) eqn:Hs.
    + apply andb_true_iff in Hs as [Hs Hc].
      by rewrite (save_chat_config_savable now ids dest w Hs Hc).
    + by destruct (save_chat_config_not_savable now ids dest w Hs) as (e & ->).
  - destruct (chat_config_savable f && can_write w) eqn:Hs.
    + apply andb_true_iff in Hs as [Hs Hc].
      by rewrite (save_chat_config_savable now ids dest w Hs Hc).
    + destruct (save_chat_config_not_savable now ids dest w Hs) as (e & ->).
      split; [done | by exists e].
  - intros Hf Hd. by rewrite (save_chat_config_missing_denied now ids dest w Hf Hd).
Qed.

(** X6.  The last save wins, whole: in a state where [save_chat_config]
    writes, saving one chat configuration and then another leaves the same
    file as saving the second alone; nothing of the first is kept. *)
Theorem save_chat_config_last_wins now ids dest now' ids' dest' w :
  chat_config_savable (config_file w) = true →
  config_file (run (save_chat_config now' ids' dest')
                 (run (save_chat_config now ids dest) w))
  = config_file (run (save_chat_config now' ids' dest') w).
Proof.
  intros Hs. destruct (can_write w) eqn:Hc.
  - unfold run at 2 3.
    rewrite !(save_chat_config_savable _ _ _ w Hs Hc). simpl.
    set (w1 := set_config_file _ w).
    assert (Hs1 : chat_config_savable (config_file w1) = true).
    { unfold w1. simpl. destruct (config_file w) as [|p [[]|]]; done. }
    assert (Hc1 : can_write w1 = true).
    { unfold w1, can_write in *. simpl.
      destruct (config_file w) as [|p [[]|]]; done. }
    unfold run. rewrite (save_chat_config_savable _ _ _ w1 Hs1 Hc1). simpl.
    rewrite merged_merged.
    destruct (config_file w) as [|p [[]|]]; done.
  - (* no file, and none can be created: neither save writes *)
    unfold can_write in Hc.
    destruct (config_file w) as [|p [[]|]] eqn:Hf; try done;
      [|simpl in Hs; apply andb_true_iff in Hs as [_ ?]; congruence].
    unfold run at 2 3.
    rewrite !(save_chat_config_missing_denied _ _ _ w Hf Hc). simpl.
    unfold run.
    by rewrite (save_chat_config_missing_denied _ _ _ (add_log _ _ w) Hf Hc).
Qed.

Lemma save_then_load_credentials_witness :
  let w := with_file write_only (Garbled (str "{not json")) in
  let w1 := run (save_credentials posix (str "1") (str "h") (str "+100")) w in
  can_read (config_file w) = false
  ∧ load_credentials w1 = (Return (JStr (str "1"), JStr (str "h"), JStr (str "+100")), w1).
Proof.
  split; [reflexivity|].
  apply (save_then_load_credentials posix (str "1") (str "h") (str "+100")
           (with_file write_only (Garbled (str "{not json")))).
  - reflexivity.
  - right; right. split; [by vm_compute | reflexivity].
Defined.

Lemma save_credentials_chmod_failure_witness :
  let w := with_file shared (Document (JObj chats_only)) in
  save_credentials posix (str "1") (str "h") (str "+100") w
  = (Return (),
     add_log ERROR
       (str "Error saving credentials: [Errno 1] Operation not permitted: 'telegram_config.json'")
       (set_config_file
          (File shared (Document (JObj (credentials (str "1") (str "h") (str "+100")))))
          w)).
Proof.
  apply (save_credentials_chmod_failure posix (str "1") (str "h") (str "+100") shared
           (Document (JObj chats_only)));
    [reflexivity | reflexivity | reflexivity | by vm_compute].
Defined.

Lemma credentials_survive_chat_config_witness :
  let w1 := run (save_credentials posix (str "1") (str "h") (str "+100")) world0 in
  let w2 := run (save_chat_config stamp [11; 22]%Z 99) w1 in
  load_credentials w2 = (Return (JStr (str "1"), JStr (str "h"), JStr (str "+100")), w2)
  ∧ load_chat_config w2 = (Return (JList (JInt <$> [11; 22]%Z), JInt 99), w2).
Proof.
  apply (credentials_survive_chat_config posix (str "1") (str "h") (str "+100") stamp
           [11; 22]%Z 99 world0).
  left. split; reflexivity.
Defined.

Lemma save_chat_config_last_wins_witness :
  let w := on_disk (Document (JObj credentials_only)) in
  config_file (run (save_chat_config stamp [33]%Z 44)
                 (run (save_chat_config (str "2024-01-01T00:00:00") [11; 22]%Z 99) w))
  = config_file (run (save_chat_config stamp [33]%Z 44) w).
Proof.
  apply (save_chat_config_last_wins (str "2024-01-01T00:00:00") [11; 22]%Z 99 stamp
           [33]%Z 44 (on_disk (Document (JObj credentials_only)))).
  reflexivity.
Defined.

(** ** More on the forwarder: what is sent, requested and logged *)

Section TokenShape.
Variable uni_alnum : N → bool.

Lemma qualifying_slice text i n :
  qualifying uni_alnum text i n = true →
  length (slice text i n) = n
  ∧ forallb ascii_alnum (slice text i n) = true
  ∧ text = take i text ++ slice text i n ++ drop (i + n) text.
Proof.
  intros Hq. pose proof (qualifying_length uni_alnum text i n Hq) as Hlen.
  unfold qualifying, alnum_run in Hq.
  rewrite !andb_true_iff in Hq. destruct Hq as [[_ [_ Hall]] _].
  split_and!; [by apply slice_length; lia | done |].
  unfold slice. rewrite <- drop_drop, take_drop. by rewrite take_drop.
Qed.

(** The token of any event is the leftmost qualifying run of its text. *)
Lemma token_of_event event token :
  token_of uni_alnum event = Some token →
  ∃ text i n, message_text event = Some text
              ∧ first_qualifying uni_alnum text i n ∧ token = slice text i n.
Proof.
  destruct event as [chat [text|]]; [|done]. intros H.
  apply (token_of_Some uni_alnum chat text token) in H as (i & n & Hf & ->).
  by exists text, i, n.
Qed.

End TokenShape.

Section RelayProperties.
Variable uni_alnum : N → bool.
Variable client : TelegramClient.
Variable source_names : gmap Z pystr.
Variable dest_name : pystr.
Variable destination_chat_id : Z.

Local Abbreviation relay :=
  (new_message_handler uni_alnum client source_names dest_name destination_chat_id).

(** X7.  Whatever the callback asks the client to send goes to the
    destination chat and is a contiguous piece of the message text of 43 or
    44 characters, all of them ASCII letters or digits. *)
Theorem forwarded_text_is_a_token event w sent :
  sent ∈ drop (length (sends (calls w))) (sends (calls (run (relay event) w))) →
  sent.1 = destination_chat_id
  ∧ (length sent.2 = 43 ∨ length sent.2 = 44)
  ∧ forallb ascii_alnum sent.2 = true
  ∧ ∃ text before after,
      message_text event = Some text ∧ text = before ++ sent.2 ++ after.
Proof.
  rewrite handler_sends, drop_app_length.
  destruct (token_of uni_alnum event) as [token|] eqn:E;
    [|by intros ?%not_elem_of_nil].
  intros ->%list_elem_of_singleton. simpl.
  apply token_of_event in E as (text & i & n & Ht & [Hq _] & ->).
  destruct (qualifying_slice uni_alnum text i n Hq) as (Hlen & Hall & Hsplit).
  pose proof (qualifying_length uni_alnum text i n Hq) as Hn.
  split_and!; [done | lia | done |]. exists text. eauto.
Qed.

(** X8.  A run of letters and digits that touches a word character outside
    [[a-zA-Z0-9]] (an underscore, an accented or non-Latin letter, a
    non-ASCII digit) on either side is never forwarded, whatever its
    length: no position of it lies in a qualifying run, nor in the text of a
    send. *)
Theorem run_glued_to_word_character_not_forwarded chat text i n w :
  maximal_alnum_run text i n = true →
  word_opt uni_alnum (char_before text i) = true
  ∨ word_opt uni_alnum (text !! (i + n)) = true →
  (∀ j k, qualifying uni_alnum text j k = true → j + k ≤ i ∨ i + n ≤ j)
  ∧ ∀ sent,
      sent ∈ drop (length (sends (calls w)))
               (sends (calls (run (relay (event_of chat text)) w))) →
      ∃ j k, sent = (destination_chat_id, slice text j k)
             ∧ (j + k ≤ i ∨ i + n ≤ j).
Proof.
  intros Hmax Hword.
  assert (Hdisj : ∀ j k, qualifying uni_alnum text j k = true →
                         j + k ≤ i ∨ i + n ≤ j).
  { intros j k Hq.
    destruct (decide (j + k ≤ i)); [by left|].
    destruct (decide (i + n ≤ j)); [by right|].
    destruct (qualifying_maximal_same uni_alnum text i n j k Hmax Hq)
      as [<- <-]; [lia..|].
    unfold qualifying, word_delimited in Hq.
    rewrite !andb_true_iff, !negb_true_iff in Hq.
    destruct Hq as [_ [Hl Hr]]. destruct Hword; congruence. }
  split; [done|]. intros sent.
  rewrite handler_sends, drop_app_length.
  destruct (token_of uni_alnum (event_of chat text)) as [token|] eqn:E;
    [|by intros ?%not_elem_of_nil].
  intros ->%list_elem_of_singleton.
  apply token_of_Some in E as (j & k & [Hq _] & ->).
  exists j, k. split; [done | by apply Hdisj].
Qed.

(** The requests of [get_chat_name]: none for a cached chat, one lookup
    otherwise; the log only grows, the config file stays. *)
Lemma get_chat_name_trace chat_id w :
  ∃ name w' entries, get_chat_name client chat_id w = (Return name, w')
    ∧ calls w' = calls w ++ match source_entities w !! chat_id with
                            | Some _ => []
                            | None => [GetEntity chat_id]
                            end
    ∧ log w' = log w ++ entries
    ∧ config_file w' = config_file w
    ∧ source_entities w ⊆ source_entities w'.
Proof.
  destruct (source_entities w !! chat_id) as [e|] eqn:Hc.
  - exists (display_name e chat_id), w, [].
    rewrite (get_chat_name_cached client chat_id e w Hc), !app_nil_r. done.
  - destruct (get_entity client (calls w) chat_id) as [e|e] eqn:He.
    + eexists _, _, []. rewrite (get_chat_name_fetched client chat_id e w Hc He).
      simpl. rewrite app_nil_r. split_and!; try done. by apply insert_subseteq.
    + eexists _, _, [_]. rewrite (get_chat_name_failed client chat_id e w Hc He).
      done.
Qed.

(** X9.  The requests the callback makes for one message, in order: a
    [get_entity] for the chat unless it is cached (having its name in
    [source_names] does not spare the lookup), then the one [send_message]
    when the text has a token.  Nothing else is requested. *)
Theorem callback_request_trace event w :
  calls (run (relay event) w)
  = calls w
    ++ match source_entities w !! chat_id event with
       | Some _ => []
       | None => [GetEntity (chat_id event)]
       end
    ++ match token_of uni_alnum event with
       | Some token => [SendMessage destination_chat_id token]
       | None => []
       end.
Proof.
  unfold run, new_message_handler, try_except, new_message_handler_try,
    token_of, mbind, M_bind.
  destruct (get_chat_name_trace (chat_id event) w)
    as (name & w1 & entries & -> & Hcalls & _).
  destruct (truthy (message_text event)); [|cbn; by rewrite Hcalls, app_nil_r].
  destruct (re_search uni_alnum TOKEN_RE _) as [m|];
    [|cbn; by rewrite Hcalls, app_nil_r].
  unfold client_send_message, logger_info, logger_error, modify. cbn.
  destruct (send_message client _ _ _) as [[]|e]; cbn;
    by rewrite Hcalls, <- app_assoc.
Qed.

(** The entries [get_chat_name] logs: the error of the lookup when the chat
    is not cached and the lookup fails, and nothing otherwise. *)
Lemma get_chat_name_log chat_id w :
  log (run (get_chat_name client chat_id) w)
  = log w
    ++ match source_entities w !! chat_id, get_entity client (calls w) chat_id with
       | None, Raise e =>
           [(ERROR, str "Error getting entity " ++ str_of_int chat_id ++ str ": "
                    ++ exn_msg e)]
       | _, _ => []
       end.
Proof.
  unfold run. destruct (source_entities w !! chat_id) as [e|] eqn:Hc.
  - rewrite (get_chat_name_cached client chat_id e w Hc). by rewrite app_nil_r.
  - destruct (get_entity client (calls w) chat_id) as [e|e] eqn:He.
    + rewrite (get_chat_name_fetched client chat_id e w Hc He). simpl.
      by rewrite app_nil_r.
    + by rewrite (get_chat_name_failed client chat_id e w Hc He).
Qed.

(** X10.  What the callback logs for one message.  It starts with what
    [get_chat_name] logs for the chat: the error of the lookup when the chat
    is not cached and [get_entity] fails, nothing otherwise.  Then, for a
    message with a token, come the token found and "Successfully forwarded"
    exactly when [send_message] returned, the error otherwise; for a message
    without a token nothing more is logged.  The name in the entries is the
    one in [source_names] when the chat has one. *)
Theorem callback_log_reports_outcome event w :
  let w1 := run (get_chat_name client (chat_id event)) w in
  let w' := run (relay event) w in
  log w1
  = log w
    ++ match source_entities w !! chat_id event,
             get_entity client (calls w) (chat_id event) with
       | None, Raise e =>
           [(ERROR, str "Error getting entity " ++ str_of_int (chat_id event)
                    ++ str ": " ++ exn_msg e)]
       | _, _ => []
       end
  ∧ match token_of uni_alnum event with
    | None => log w' = log w1
    | Some token =>
        ∃ source_name,
          (∀ name, source_names !! chat_id event = Some name → source_name = name)
          ∧ log w'
            = log w1
              ++ [(INFO, str "Found token: " ++ token ++ str " in " ++ source_name);
                  match send_message client (calls w1) destination_chat_id token with
                  | Return _ =>
                      (INFO, str "Successfully forwarded token from " ++ source_name
                             ++ str " to " ++ dest_name)
                  | Raise e => (ERROR, str "Error processing message: " ++ exn_msg e)
                  end]
    end.
Proof.
  intros w1 w'. split; [apply get_chat_name_log|].
  unfold w1, w', run, new_message_handler, try_except,
    new_message_handler_try, token_of, mbind, M_bind. clear w1 w'.
  destruct (get_chat_name_trace (chat_id event) w) as (name & w1 & entries & -> & _).
  simpl.
  destruct (truthy (message_text event)); [|done].
  destruct (re_search uni_alnum TOKEN_RE _) as [m|]; [|done].
  simpl. exists (default name (source_names !! chat_id event)).
  split; [by intros n ->|].
  unfold client_send_message, logger_info, logger_error, modify. cbn.
  destruct (send_message client _ _ _) as [[]|e]; cbn; by rewrite <- app_assoc.
Qed.

End RelayProperties.

Section SubscriptionProperties.
Variable uni_alnum : N → bool.
Variable client : TelegramClient.

(** The error entry [get_chat_name] logs for a chat. *)
Local Abbreviation lookup_error := (λ (chat_id : Z) (e : exn),
  (ERROR, str "Error getting entity " ++ str_of_int chat_id ++ str ": " ++ exn_msg e)).

(** After [get_chat_name] the chat is cached, or the failure is in the log. *)
Lemma get_chat_name_cached_or_logged chat_id w :
  let w' := run (get_chat_name client chat_id) w in
  chat_id ∈ dom (source_entities w') ∨ ∃ e, lookup_error chat_id e ∈ log w'.
Proof.
  unfold run. destruct (source_entities w !! chat_id) as [e|] eqn:Hc.
  - rewrite (get_chat_name_cached client chat_id e w Hc). left.
    apply elem_of_dom. eauto.
  - destruct (get_entity client (calls w) chat_id) as [e|e] eqn:He.
    + rewrite (get_chat_name_fetched client chat_id e w Hc He). left. simpl.
      apply elem_of_dom. rewrite lookup_insert_eq. eauto.
    + rewrite (get_chat_name_failed client chat_id e w Hc He). right. exists e.
      simpl. set_solver.
Qed.

(** What a later step keeps of "cached or logged". *)
Lemma cached_or_logged_mono chat_id w w' :
  source_entities w ⊆ source_entities w' → log w `prefix_of` log w' →
  (chat_id ∈ dom (source_entities w) ∨ ∃ e, lookup_error chat_id e ∈ log w) →
  chat_id ∈ dom (source_entities w') ∨ ∃ e, lookup_error chat_id e ∈ log w'.
Proof.
  intros Hsub [k Hk] [Hin|[e He]].
  - left. apply elem_of_dom in Hin as [x Hx]. apply elem_of_dom. exists x.
    by apply (lookup_weaken _ _ _ _ Hx).
  - right. exists e. rewrite Hk. set_solver.
Qed.

Lemma resolve_sources_spec ids : ∀ names w,
  ∃ names' w', resolve_sources client ids names w = (Return names', w')
    ∧ dom names' = dom names ∪ list_to_set ids
    ∧ sends (calls w') = sends (calls w)
    ∧ length (lookups (calls w')) ≤ length (lookups (calls w)) + length ids
    ∧ config_file w' = config_file w
    ∧ source_entities w ⊆ source_entities w'
    ∧ log w `prefix_of` log w'
    ∧ ∀ chat_id, chat_id ∈ ids →
        chat_id ∈ dom (source_entities w') ∨ ∃ e, lookup_error chat_id e ∈ log w'.
Proof.
  induction ids as [|chat_id ids IH]; intros names w.
  - exists names, w. split_and!; try done;
      [by rewrite list_to_set_nil, (right_id_L ∅ (∪)) | simpl; lia |].
    by intros c ?%not_elem_of_nil.
  - simpl. unfold mbind, M_bind.
    pose proof (get_chat_name_cached_or_logged chat_id w) as Hcl. unfold run in Hcl.
    destruct (get_chat_name_trace client chat_id w)
      as (name & w1 & entries & E & Hcalls & Hlog & Hcfg & Hsub).
    rewrite E in Hcl |- *. simpl in Hcl.
    unfold logger_info, modify. cbv beta iota.
    match goal with
    | |- context [resolve_sources client ids ?n ?w0] =>
        destruct (IH n w0)
          as (names' & w' & -> & Hdom & Hs & Hl & Hc & Hsub' & Hpre & Hall)
    end.
    simpl in Hdom, Hs, Hl, Hc, Hsub'.
    assert (Hpre' : log w1 `prefix_of` log w')
      by (etrans; [|exact Hpre]; by eexists).
    exists names', w'. split_and!.
    + done.
    + rewrite Hdom, dom_insert_L. simpl.
      by rewrite (comm_L (∪) {[chat_id]} (dom names)), <- (assoc_L (∪)).
    + rewrite Hs, Hcalls, sends_app.
      destruct (source_entities w !! chat_id); simpl; by rewrite app_nil_r.
    + rewrite Hcalls, lookups_app, length_app in Hl.
      destruct (source_entities w !! chat_id); simpl in *; lia.
    + congruence.
    + by etrans.
    + etrans; [|exact Hpre']. by exists entries.
    + intros c [->|Hin]%elem_of_cons; [|by apply Hall].
      by apply (cached_or_logged_mono chat_id w1 w').
Qed.

(** The callback is built over a name for exactly the source chats, and
    nothing is sent on the way. *)
Lemma setup_message_handlers_names source_chat_ids destination_chat_id w :
  ∃ source_names dest_name w',
    setup_message_handlers uni_alnum client source_chat_ids destination_chat_id w
    = (Return (new_message_handler uni_alnum client source_names dest_name
                 destination_chat_id), w')
    ∧ dom source_names = list_to_set source_chat_ids
    ∧ sends (calls w') = sends (calls w).
Proof.
  unfold setup_message_handlers, mbind, M_bind.
  destruct (resolve_sources_spec source_chat_ids ∅ w)
    as (names & w1 & -> & Hdom & Hs & _).
  destruct (get_chat_name_sends client destination_chat_id w1)
    as (dest_name & w2 & -> & Hs2).
  eexists names, dest_name, _. split; [done|]. split.
  - by rewrite Hdom, dom_empty_L, (left_id_L ∅ (∪)).
  - unfold logger_info, modify. simpl. unfold sends in *. congruence.
Qed.

(** X11.  Setting the subscription up never raises and asks for no send.
    It returns the callback with a name for exactly the source chats, after
    at most one lookup per listed source and one for the destination; every
    one of these chats is then in the cache, so that its messages cost no
    lookup, or has its failed lookup in the log.  The config file is not
    touched. *)
Theorem setup_resolves_every_chat source_chat_ids destination_chat_id w :
  ∃ source_names dest_name w',
    setup_message_handlers uni_alnum client source_chat_ids destination_chat_id w
    = (Return (new_message_handler uni_alnum client source_names dest_name
                 destination_chat_id), w')
    ∧ dom source_names = list_to_set source_chat_ids
    ∧ sends (calls w') = sends (calls w)
    ∧ length (lookups (calls w'))
      ≤ length (lookups (calls w)) + length source_chat_ids + 1
    ∧ config_file w' = config_file w
    ∧ ∀ chat_id, chat_id ∈ destination_chat_id :: source_chat_ids →
        chat_id ∈ dom (source_entities w') ∨ ∃ e, lookup_error chat_id e ∈ log w'.
Proof.
  unfold setup_message_handlers, mbind, M_bind.
  destruct (resolve_sources_spec source_chat_ids ∅ w)
    as (names & w1 & -> & Hdom & Hs & Hl & Hc & Hsub & Hpre & Hall).
  pose proof (get_chat_name_cached_or_logged destination_chat_id w1) as Hcl.
  unfold run in Hcl.
  destruct (get_chat_name_trace client destination_chat_id w1)
    as (dest_name & w2 & entries & E & Hcalls & Hlog & Hcfg & Hsub2).
  rewrite E in Hcl |- *. simpl in Hcl.
  unfold logger_info, modify. cbn.
  eexists names, dest_name, _. split; [done|]. simpl. split_and!.
  - by rewrite Hdom, dom_empty_L, (left_id_L ∅ (∪)).
  - rewrite Hcalls, sends_app, Hs.
    destruct (source_entities w1 !! destination_chat_id); simpl; by rewrite app_nil_r.
  - rewrite Hcalls, lookups_app, length_app.
    destruct (source_entities w1 !! destination_chat_id); simpl; lia.
  - congruence.
  - intros c [->|Hin]%elem_of_cons.
    + destruct Hcl as [?|[e He]]; [by left|]. right. exists e.
      apply elem_of_app. by left.
    + destruct (cached_or_logged_mono c w1 w2 Hsub2) as [?|[e He]];
        [by exists entries | by apply Hall | by left |].
      right. exists e. apply elem_of_app. by left.
Qed.

Section Delivery.
Variable source_names : gmap Z pystr.
Variable dest_name : pystr.
Variable destination_chat_id : Z.
Variable source_chat_ids : list Z.

Local Abbreviation relay :=
  (new_message_handler uni_alnum client source_names dest_name destination_chat_id).

Lemma handler_frame event w :
  let w' := run (relay event) w in
  config_file w' = config_file w
  ∧ source_entities w ⊆ source_entities w'
  ∧ calls w `prefix_of` calls w'
  ∧ log w `prefix_of` log w'.
Proof.
  unfold run, new_message_handler, try_except, new_message_handler_try,
    mbind, M_bind.
  destruct (get_chat_name_trace client (chat_id event) w)
    as (name & w1 & entries & -> & Hcalls & Hlog & Hcfg & Hsub).
  assert (Hc : calls w `prefix_of` calls w1) by (rewrite Hcalls; by eexists).
  assert (Hl : log w `prefix_of` log w1) by (rewrite Hlog; by eexists).
  destruct (truthy (message_text event)); [|done].
  destruct (re_search uni_alnum TOKEN_RE _) as [m|]; [|done].
  unfold client_send_message, logger_info, logger_error, modify. cbn.
  destruct (send_message client _ _ _) as [[]|e]; cbn;
    (split_and!; [done | done | |]);
    try (etrans; [exact Hc|]; by eexists);
    (etrans; [exact Hl|]); rewrite <- ?app_assoc; by eexists.
Qed.

(** X12.  What relaying never does: however many messages are delivered,
    and whatever the client answers, the config file is not written, no
    cached entity is dropped or replaced, and the record of requests and the
    log are only ever extended. *)
Theorem delivery_frame events w :
  let w' := run (deliver source_chat_ids relay events) w in
  config_file w' = config_file w
  ∧ source_entities w ⊆ source_entities w'
  ∧ calls w `prefix_of` calls w'
  ∧ log w `prefix_of` log w'.
Proof.
  revert w. induction events as [|event rest IH]; intros w; [done|].
  simpl. unfold run, mbind, M_bind.
  destruct (bool_decide (chat_id event ∈ source_chat_ids)).
  - destruct (handler_returns uni_alnum client source_names dest_name
                destination_chat_id event w) as [w1 E].
    destruct (handler_frame event w) as (H1 & H2 & H3 & H4).
    unfold run in H1, H2, H3, H4. rewrite E in H1, H2, H3, H4 |- *. simpl in *.
    destruct (IH w1) as (I1 & I2 & I3 & I4). unfold run in I1, I2, I3, I4.
    split_and!; [congruence | by etrans | by etrans | by etrans].
  - apply IH.
Qed.

End Delivery.
End SubscriptionProperties.

Lemma forwarded_text_is_a_token_witness :
  let w' := run (new_message_handler ascii_only steady_client ∅ (str "Drop") 99
                   (event_of 5 prose43)) world0 in
  (99%Z, token43) ∈ drop (length (sends (calls world0))) (sends (calls w'))
  ∧ (length token43 = 43 ∨ length token43 = 44)
  ∧ forallb ascii_alnum token43 = true.
Proof.
  intros w'.
  assert (Hin : (99%Z, token43)
                ∈ drop (length (sends (calls world0))) (sends (calls w')))
    by (vm_compute; apply list_elem_of_here).
  split; [exact Hin|].
  destruct (forwarded_text_is_a_token ascii_only steady_client ∅ (str "Drop") 99
              (event_of 5 prose43) world0 (99%Z, token43) Hin) as (_ & H1 & H2 & _).
  split; [exact H1 | exact H2].
Defined.

Lemma run_glued_to_word_character_not_forwarded_witness :
  maximal_alnum_run labelled 5 43 = true
  ∧ word_opt ascii_only (char_before labelled 5) = true
  ∧ ∀ j k, qualifying ascii_only labelled j k = true → j + k ≤ 5 ∨ 5 + 43 ≤ j.
Proof.
  split; [reflexivity|]. split; [reflexivity|].
  apply (run_glued_to_word_character_not_forwarded ascii_only steady_client ∅
           (str "Drop") 99 5 labelled 5 43 world0);
    [reflexivity | left; reflexivity].
Defined.

(** ** The fallback label *)

Lemma str_inj s1 s2 : str s1 = str s2 → s1 = s2.
Proof.
  unfold str. intros H.
  rewrite <- (string_of_list_ascii_of_string s1),
    <- (string_of_list_ascii_of_string s2).
  f_equal. revert H.
  generalize (list_ascii_of_string s1) (list_ascii_of_string s2).
  induction l as [|a l IH]; intros [|b k]; simpl; try done.
  intros [= Hab Hlk]. f_equal; [|by apply IH].
  by rewrite <- (ascii_N_embedding a), <- (ascii_N_embedding b), Hab.
Qed.

Lemma to_int_not_nil z : Z.to_int z ≠ Decimal.Pos Decimal.Nil
                         ∧ Z.to_int z ≠ Decimal.Neg Decimal.Nil.
Proof.
  destruct z as [|p|p]; simpl; split; try done;
    intros [= H]; by apply DecimalPos.Unsigned.to_uint_nonnil in H.
Qed.

Lemma str_of_int_inj a b : str_of_int a = str_of_int b → a = b.
Proof.
  unfold str_of_int. intros H%str_inj.
  apply DecimalZ.to_int_inj.
  destruct (to_int_not_nil a) as [Ha1 Ha2], (to_int_not_nil b) as [Hb1 Hb2].
  pose proof (NilZero.isi (Z.to_int a) Ha1 Ha2) as Ea.
  pose proof (NilZero.isi (Z.to_int b) Hb1 Hb2) as Eb.
  rewrite H in Ea. rewrite Ea in Eb. by injection Eb.
Qed.

(** X25.  The fallback label tells the chats apart: "Chat <id>" is the same
    text for two chat IDs only when they are the same ID. *)
Theorem chat_label_injective a b : chat_label a = chat_label b → a = b.
Proof.
  unfold chat_label. intros H. apply app_inv_head in H. by apply str_of_int_inj.
Qed.

Lemma chat_label_injective_witness :
  chat_label 7 = str "Chat 7" ∧ (chat_label 7 = chat_label (3 + 4) → 7 = 3 + 4)%Z.
Proof.
  split; [reflexivity|]. apply (chat_label_injective 7 (3 + 4)).
Defined.

(** ** Connecting *)

(** Unfold the plumbing of the process monad. *)
Ltac unfold_p :=
  unfold client_is_connected, client_connect, client_is_user_authorized,
    client_send_code_request, client_sign_in, client_sign_in_password,
    client_get_dialogs, client_disconnect, info, error, print, input,
    asyncio_sleep, open_write, file_write in *;
  unfold result_of, after, catch_all, catch_password_needed, finally, lift, fail,
    logger_info, logger_error, modify, mbind, P_bind, M_bind, mret, P_ret, M_ret in *;
  cbv beta.

(** Split on the answers of the account and on the lines left to read. *)
Ltac split_answers account :=
  repeat (cbn;
          match goal with
          | |- context [is_connected account ?h] =>
              destruct (is_connected account h) eqn:?
          | |- context [connect account ?h] =>
              destruct (connect account h) as [[]|[]] eqn:?
          | |- context [is_user_authorized account ?h] =>
              destruct (is_user_authorized account h) as [[]|[]] eqn:?
          | |- context [send_code_request account ?h ?ph] =>
              destruct (send_code_request account h ph) as [[]|[]] eqn:?
          | |- context [sign_in account ?h ?ph ?c] =>
              destruct (sign_in account h ph c) as [[]|[]] eqn:?
          | |- context [sign_in_password account ?h ?pw] =>
              destruct (sign_in_password account h pw) as [[]|[]] eqn:?
          | |- context [match ?l with [] => _ | _ :: _ => _ end] =>
              is_var l; destruct l
          end);
  cbn.

Ltac prefix_tac := first [reflexivity | apply prefix_app_r; prefix_tac].

Section ConnectionProperties.
Variable account : Account.
Variable phone_number : pystr.

Local Abbreviation ensure_connected := (ensure_connected account phone_number).
Local Abbreviation ensure_connected_try := (ensure_connected_try account phone_number).

(** X13.  With the client connected and the user authorized,
    [ensure_connected] returns [True] after the one authorization query: it
    neither reconnects nor asks for a code, reads and prints nothing, logs
    nothing and does not sleep. *)
Theorem ensure_connected_when_ready p :
  is_connected account (requests p) = true →
  is_user_authorized account (requests p) = Done true →
  ensure_connected p = (Done true, add_request IsUserAuthorized p).
Proof.
  intros Hc Ha. unfold Session.ensure_connected, Session.ensure_connected_try.
  unfold_p. rewrite Hc. cbn. rewrite Ha. reflexivity.
Qed.

(** X14.  [ensure_connected] never raises.  It returns [True] only when
    the client has said that the user is authorized or has accepted a
    sign-in, and then without sleeping.  It returns [False] only after
    logging an error and sleeping once: for the wait the server asked for
    when a request was refused for flooding, for 5 seconds after any other
    failure. *)
Theorem ensure_connected_sound p :
  ∃ b p', ensure_connected p = (Done b, p')
    ∧ (b = true →
       sleeps p' = sleeps p
       ∧ ∃ h, h `prefix_of` requests p'
              ∧ (is_user_authorized account h = Done true
                 ∨ (∃ code, sign_in account h phone_number code = Done ())
                 ∨ (∃ password, sign_in_password account h password = Done ())))
    ∧ (b = false →
       (∃ msg, last (log (base p')) = Some (ERROR, msg))
       ∧ sleeps p'
         = sleeps p
           ++ [match result_of ensure_connected_try p with
               | Fail (FloodWaitError seconds _) => seconds
               | _ => 5%Z
               end]).
Proof.
  unfold Session.ensure_connected, Session.ensure_connected_try, login.
  unfold_p. destruct p as [w rs inp out sl fs].
  split_answers account; eexists _, _; (split; [reflexivity|]); cbn;
    (split; [intros [=] | intros [=]]);
    try (split; [by rewrite last_snoc; eexists | reflexivity]);
    (split; [reflexivity|]);
    match goal with
    | H : is_user_authorized account ?h = Done true |- _ =>
        exists h; split; [prefix_tac | left; exact H]
    | H : sign_in account ?h _ _ = Done () |- _ =>
        exists h; split; [prefix_tac | right; left; eexists; exact H]
    | H : sign_in_password account ?h _ = Done () |- _ =>
        exists h; split; [prefix_tac | right; right; eexists; exact H]
    end.
Qed.

(** X15.  The two-step password is asked for and sent only after
    [sign_in] with the code has answered that the account needs one; and
    [ensure_connected] reads at most two lines, the code and the password. *)
Theorem password_only_when_needed p :
  let p' := after ensure_connected p in
  (∀ password,
     SignInPassword password ∈ drop (length (requests p)) (requests p') →
     ∃ h code msg, h `prefix_of` requests p'
       ∧ sign_in account h phone_number code = Fail (SessionPasswordNeededError msg))
  ∧ length (stdin p) ≤ length (stdin p') + 2.
Proof.
  unfold Session.ensure_connected, Session.ensure_connected_try, login.
  unfold_p. destruct p as [w rs inp out sl fs].
  split_answers account; (split; [|simpl; lia]); intros password Hin;
    rewrite <- ?app_assoc, ?drop_app_length in Hin; simpl in Hin;
    first
      [ match goal with
        | H : sign_in account ?h _ ?c = Fail (SessionPasswordNeededError ?m) |- _ =>
            exists h, c, m; split; [prefix_tac | exact H]
        end
      | exfalso;
        repeat (apply elem_of_cons in Hin as [Hin|Hin]; [discriminate Hin|]);
        by apply elem_of_nil in Hin ].
Qed.

(** What [ensure_connected] leaves alone. *)
Lemma ensure_connected_frame p :
  let p' := after ensure_connected p in
  files p' = files p ∧ cwd_writable (base p') = cwd_writable (base p)
  ∧ calls (base p') = calls (base p)
  ∧ config_file (base p') = config_file (base p)
  ∧ source_entities (base p') = source_entities (base p).
Proof.
  unfold Session.ensure_connected, Session.ensure_connected_try, login.
  unfold_p. destruct p as [w rs inp out sl fs].
  split_answers account; done.
Qed.

Lemma ensure_connected_returns p :
  ∃ b p', ensure_connected p = (Done b, p').
Proof.
  unfold Session.ensure_connected, Session.ensure_connected_try, login.
  unfold_p. destruct p as [w rs inp out sl fs].
  split_answers account; by eexists _, _.
Qed.

End ConnectionProperties.

(** ** Listing the chats *)

Section ListingProperties.
Variable py_repr : pystr → pystr.
Variable account : Account.
Variable phone_number : pystr.

Local Abbreviation ensure_connected := (ensure_connected account phone_number).
Local Abbreviation list_chats := (list_chats py_repr account phone_number).
Local Abbreviation file_name := (chats_file_name phone_number).

(** The line of a dialog in the listing. *)
Local Abbreviation line_of := (λ d : dialog, chat_info d ++ str (String "010" EmptyString)).

(** The loop writes one line per dialog to the open file and logs each. *)
Lemma write_chats_spec name dialogs : ∀ p text,
  files p !! name = Some text →
  write_chats name dialogs p
  = (Done (),
     with_files (<[name := text ++ mjoin (line_of <$> dialogs)]> (files p))
       (with_base
          (World (source_entities (base p)) (calls (base p)) (config_file (base p))
             (cwd_writable (base p))
             (log (base p) ++ ((λ d, (INFO, chat_info d)) <$> dialogs)))
          p)).
Proof.
  induction dialogs as [|d ds IH]; intros p text Hf.
  - cbn. rewrite !app_nil_r, insert_id by done.
    by destruct p as [[] ? ? ? ? ?].
  - cbn [write_chats]. unfold_p.
    remember (chat_info d) as line eqn:Hline. cbn. rewrite Hf. cbn.
    erewrite IH by (cbn; apply lookup_insert_eq).
    cbn. rewrite insert_insert_eq, <- !app_assoc, <- Hline. reflexivity.
Qed.

(** X16.  With the connection up, the dialogs fetched and a working
    directory the process may write, [list_chats] writes the listing file, named after the phone
    number and the time, with one line per dialog, in the order the client
    gave them, logs each of these lines and then their number. *)
Theorem list_chats_writes_one_line_per_dialog stamp dialogs p p1 :
  ensure_connected p = (Done true, p1) →
  get_dialogs account (requests p1) = Done dialogs →
  cwd_writable (base p1) = true →
  let p' := after (list_chats stamp) p in
  result_of (list_chats stamp) p = Done ()
  ∧ files p' = <[file_name stamp := mjoin (line_of <$> dialogs)]> (files p1)
  ∧ log (base p')
    = log (base p1)
      ++ [(INFO, str "Fetching list of chats...")]
      ++ ((λ d, (INFO, chat_info d)) <$> dialogs)
      ++ [(INFO, str "Listed " ++ str_of_int (Z.of_nat (length dialogs))
                 ++ str " chats and saved to " ++ file_name stamp)]
  ∧ requests p' = requests p1 ++ [GetDialogs].
Proof.
  intros Hc Hd Hw p'.
  assert (∃ pf, list_chats stamp p = (Done (), pf)
            ∧ files pf = <[file_name stamp := mjoin (line_of <$> dialogs)]> (files p1)
            ∧ log (base pf)
              = log (base p1)
                ++ [(INFO, str "Fetching list of chats...")]
                ++ ((λ d, (INFO, chat_info d)) <$> dialogs)
                ++ [(INFO, str "Listed " ++ str_of_int (Z.of_nat (length dialogs))
                           ++ str " chats and saved to " ++ file_name stamp)]
            ∧ requests pf = requests p1 ++ [GetDialogs]) as (pf & E & H1 & H2 & H3).
  { unfold Session.list_chats. unfold mbind at 1. unfold P_bind at 1.
    rewrite Hc. cbn [negb]. cbv iota. unfold list_chats_try. unfold_p.
    cbn. rewrite Hd. cbn. rewrite Hw. cbn.
    erewrite write_chats_spec by (cbn; apply lookup_insert_eq).
    eexists. split; [reflexivity|]. cbn.
    rewrite insert_insert_eq, <- !app_assoc. done. }
  unfold p', result_of, after. rewrite E. done.
Qed.

Lemma write_chats_returns name dialogs : ∀ p,
  ∃ p', write_chats name dialogs p = (Done (), p').
Proof.
  induction dialogs as [|d ds IH]; intros p; [by eexists|].
  cbn [write_chats]. unfold_p. cbn.
  match goal with
  | |- context [write_chats name ds ?p0] => destruct (IH p0) as [p' ->]
  end.
  by eexists.
Qed.

Lemma list_chats_after_check stamp p b p1 :
  ensure_connected p = (Done b, p1) →
  list_chats stamp p
  = if b
    then catch_all (list_chats_try py_repr account phone_number stamp)
           (λ e, error (str "Error listing chats: " ++ failure_msg e)) p1
    else error (str "Failed to connect to Telegram") p1.
Proof.
  intros Hc. unfold Session.list_chats, mbind, P_bind. rewrite Hc. by destruct b.
Qed.

(** X17.  [list_chats] never raises, and it writes a listing only when it
    is connected and has the dialogs: when [ensure_connected] fails it asks
    the client nothing more, and when fetching the dialogs fails no file is
    created; in both cases the last thing logged is the error. *)
Theorem list_chats_guarded stamp p :
  let p' := after (list_chats stamp) p in
  result_of (list_chats stamp) p = Done ()
  ∧ (∀ p1, ensure_connected p = (Done false, p1) →
       files p' = files p ∧ requests p' = requests p1
       ∧ last (log (base p')) = Some (ERROR, str "Failed to connect to Telegram"))
  ∧ (∀ p1 e, ensure_connected p = (Done true, p1) →
       get_dialogs account (requests p1) = Fail e →
       files p' = files p
       ∧ last (log (base p'))
         = Some (ERROR, str "Error listing chats: " ++ failure_msg e)).
Proof.
  intros p'. unfold p', result_of, after. clear p'.
  destruct (ensure_connected_frame account phone_number p) as (Hfiles & _).
  unfold after in Hfiles.
  destruct (ensure_connected_returns account phone_number p) as (b & p1 & Hc).
  rewrite Hc in Hfiles. simpl in Hfiles.
  rewrite (list_chats_after_check stamp p b p1 Hc).
  destruct b.
  - split_and!.
    + unfold list_chats_try. unfold_p. cbn.
      destruct (get_dialogs account (requests p1)) as [ds|e]; cbn; [|done].
      destruct (cwd_writable (base p1)); cbn; [|done].
      match goal with
      | |- context [write_chats ?n ds ?p0] =>
          destruct (write_chats_returns n ds p0) as [p2 ->]
      end.
      done.
    + intros p2 H. congruence.
    + intros p2 e H Hd. rewrite Hc in H. injection H as <-. unfold list_chats_try. unfold_p. cbn.
      rewrite Hd. cbn. split; [done | by rewrite last_snoc].
  - unfold_p. cbn. split_and!; [done | | intros p2 e H; congruence].
    intros p2 H. rewrite Hc in H. injection H as <-. cbn.
    split_and!; [done | done | by rewrite last_snoc].
Qed.

End ListingProperties.

(** ** Forwarding: from the connection check to the wait *)

Section ForwardingProperties.
Variable uni_alnum : N → bool.
Variable client : TelegramClient.
Variable account : Account.
Variable phone_number : pystr.
Variable listening : list Z → (Event → M unit) → P unit.

Local Abbreviation ensure_connected := (ensure_connected account phone_number).
Local Abbreviation forward :=
  (start_forwarding uni_alnum client account phone_number listening).

Lemma start_forwarding_after_check ids dest p b p1 :
  ensure_connected p = (Done b, p1) →
  forward ids dest p
  = if b
    then (handler ← lift (setup_message_handlers uni_alnum client ids dest);
          info (str "Message handlers set up successfully");;
          info (str "Waiting for new messages. Press Ctrl+C to stop.");;
          listening ids handler) p1
    else error (str "Failed to connect to Telegram") p1.
Proof.
  intros Hc. unfold start_forwarding. unfold mbind at 1. unfold P_bind at 1.
  rewrite Hc. by destruct b.
Qed.

(** X18.  [setup_message_handlers] subscribes and waits only with the
    connection up.  When [ensure_connected] returns [False] it logs "Failed
    to connect to Telegram" and returns at once: the client has been asked
    for no name and no send, and the wait for messages does not start.  When
    [ensure_connected] returns [True], the wait starts on the callback that
    holds a name for exactly the source chats, after the two entries that
    announce it, and before it starts nothing has been sent and the
    connection has been asked nothing more. *)
Theorem start_forwarding_guarded source_chat_ids destination_chat_id p :
  (∀ p1, ensure_connected p = (Done false, p1) →
     forward source_chat_ids destination_chat_id p
     = (Done (),
        with_base (add_log ERROR (str "Failed to connect to Telegram") (base p1)) p1)
     ∧ calls (base p1) = calls (base p)
     ∧ source_entities (base p1) = source_entities (base p))
  ∧ (∀ p1, ensure_connected p = (Done true, p1) →
     ∃ source_names dest_name w2,
       forward source_chat_ids destination_chat_id p
       = listening source_chat_ids
           (new_message_handler uni_alnum client source_names dest_name
              destination_chat_id)
           (with_base
              (add_log INFO (str "Waiting for new messages. Press Ctrl+C to stop.")
                 (add_log INFO (str "Message handlers set up successfully") w2))
              p1)
       ∧ setup_message_handlers uni_alnum client source_chat_ids
           destination_chat_id (base p1)
         = (Return (new_message_handler uni_alnum client source_names dest_name
                      destination_chat_id), w2)
       ∧ dom source_names = list_to_set source_chat_ids
       ∧ sends (calls w2) = sends (calls (base p))).
Proof.
  destruct (ensure_connected_frame account phone_number p)
    as (_ & _ & Hcalls & _ & Hcache).
  unfold after in Hcalls, Hcache.
  split.
  - intros p1 Hc. rewrite Hc in Hcalls, Hcache. simpl in Hcalls, Hcache.
    rewrite (start_forwarding_after_check _ _ p false p1 Hc).
    split; [|done]. unfold_p. by destruct p1.
  - intros p1 Hc. rewrite Hc in Hcalls. simpl in Hcalls.
    rewrite (start_forwarding_after_check _ _ p true p1 Hc).
    destruct (setup_message_handlers_names uni_alnum client source_chat_ids
                destination_chat_id (base p1))
      as (names & dest_name & w2 & E & Hdom & Hs).
    exists names, dest_name, w2. split_and!; [|done|done|by rewrite Hs, Hcalls].
    unfold mbind at 1. unfold P_bind at 1. unfold lift at 1. rewrite E.
    unfold_p. by destruct p1.
Qed.

End ForwardingProperties.

Lemma ensure_connected_when_ready_witness :
  ensure_connected ready_account phone (session world0 [])
  = (Done true, add_request IsUserAuthorized (session world0 [])).
Proof.
  apply (ensure_connected_when_ready ready_account phone (session world0 []));
    reflexivity.
Defined.

Lemma start_forwarding_guarded_witness :
  let p := session world0 [] in
  (let p' := after (start_forwarding ascii_only steady_client offline_account phone
                      no_message [5]%Z 99) p in
   requests p' = [Connect] ∧ calls (base p') = [] ∧ sleeps p' = [5%Z]
   ∧ last (log (base p')) = Some (ERROR, str "Failed to connect to Telegram"))
  ∧ ∃ source_names dest_name w2,
      start_forwarding ascii_only steady_client ready_account phone no_message
        [5]%Z 99 p
      = no_message [5]%Z
          (new_message_handler ascii_only steady_client source_names dest_name 99)
          (with_base
             (add_log INFO (str "Waiting for new messages. Press Ctrl+C to stop.")
                (add_log INFO (str "Message handlers set up successfully") w2))
             (add_request IsUserAuthorized p))
      ∧ dom source_names = list_to_set [5]%Z
      ∧ sends (calls w2) = [].
Proof.
  intros p.
  destruct (start_forwarding_guarded ascii_only steady_client offline_account phone
              no_message [5]%Z 99 p) as [Hoff _].
  destruct (start_forwarding_guarded ascii_only steady_client ready_account phone
              no_message [5]%Z 99 p) as [_ Hon].
  split.
  - destruct (Hoff _ eq_refl) as (E & _). unfold after. rewrite E.
    vm_compute. repeat split.
  - destruct (Hon _ eq_refl) as (names & dest_name & w2 & E & _ & Hdom & Hs).
    exists names, dest_name, w2. split; [exact E|]. split; [exact Hdom | exact Hs].
Defined.

Lemma list_chats_writes_one_line_per_dialog_witness :
  let p := session world0 [] in
  let p' := after (list_chats quoted ready_account phone (str "20240601_120000")) p in
  files p' !! chats_file_name phone (str "20240601_120000")
  = Some (str "Chat ID: -1001, Title: News, Type: Channel"
          ++ str (String "010" EmptyString)
          ++ str "Chat ID: 42, Title: Ann, Type: User"
          ++ str (String "010" EmptyString))
  ∧ requests p' = [IsUserAuthorized; GetDialogs].
Proof.
  intros p p'.
  destruct (list_chats_writes_one_line_per_dialog quoted ready_account phone
              (str "20240601_120000") two_dialogs p
              (add_request IsUserAuthorized p) eq_refl eq_refl eq_refl)
    as (_ & Hfiles & _ & Hreq).
  fold p' in Hfiles, Hreq. split.
  - rewrite Hfiles. rewrite lookup_insert_eq. vm_compute. reflexivity.
  - exact Hreq.
Defined.

(** ** The credentials and the menu of [main] *)

Lemma read_error_unusable f :
  read_error f → can_read f && holds_object f = false.
Proof.
  intros [p c Hr|p raw|p j Hj]; cbn; [by rewrite Hr | by rewrite andb_false_r |].
  destruct j; try by rewrite andb_false_r. by destruct (Hj m).
Qed.

(** The loaders, case by case on the file. *)
Lemma load_credentials_cases w :
  ∃ w', load_credentials w
        = (Return (if can_read (config_file w) && holds_object (config_file w)
                   then (stored (config_file w) k_api_id,
                         stored (config_file w) k_api_hash,
                         stored (config_file w) k_phone_number)
                   else (JNull, JNull, JNull)), w')
    ∧ config_file w' = config_file w ∧ calls w' = calls w
    ∧ source_entities w' = source_entities w
    ∧ (can_read (config_file w) && holds_object (config_file w) = true → w' = w)
    ∧ cwd_writable w' = cwd_writable w.
Proof.
  destruct (file_cases (config_file w)) as [Hf|[Hf|(p & m & Hf & Hr)]].
  - exists w. rewrite (load_credentials_missing w Hf), Hf. done.
  - destruct (load_credentials_try_error w Hf) as [e E].
    rewrite (read_error_unusable _ Hf).
    eexists. unfold load_credentials, try_except. rewrite E. unfold_m. cbn.
    split_and!; done.
  - exists w. rewrite (load_credentials_object p m w Hf Hr), Hf. cbn. rewrite Hr.
    done.
Qed.

Lemma load_chat_config_cases w :
  ∃ w', load_chat_config w
        = (Return (if can_read (config_file w) && holds_object (config_file w)
                   then (stored (config_file w) k_source_chat_ids,
                         stored (config_file w) k_destination_chat_id)
                   else (JNull, JNull)), w')
    ∧ config_file w' = config_file w ∧ calls w' = calls w
    ∧ source_entities w' = source_entities w.
Proof.
  destruct (file_cases (config_file w)) as [Hf|[Hf|(p & m & Hf & Hr)]].
  - exists w. rewrite (load_chat_config_missing w Hf), Hf. done.
  - destruct (load_chat_config_try_error w Hf) as [e E].
    rewrite (read_error_unusable _ Hf).
    eexists. unfold load_chat_config, try_except. rewrite E. unfold_m. cbn.
    split_and!; done.
  - exists w. rewrite (load_chat_config_object p m w Hf Hr), Hf. cbn. rewrite Hr.
    done.
Qed.

Lemma save_chat_config_writes_cases now ids dest w :
  ∃ w', save_chat_config now ids dest w = (Return (), w').
Proof.
  destruct (chat_config_savable (config_file w) && can_write w) eqn:Hs.
  - apply andb_true_iff in Hs as [Hs Hc].
    rewrite (save_chat_config_savable now ids dest w Hs Hc). by eexists.
  - destruct (save_chat_config_not_savable now ids dest w Hs) as (e & ->).
    by eexists.
Qed.

Section MenuProperties.
Variable uni_alnum : N → bool.
Variable py_repr : pystr → pystr.
Variable client : TelegramClient.
Variable account : Account.
Variable listening : list Z → (Event → M unit) → P unit.
Variable os_name : pystr.
Variable py_int : pystr → option Z.
Variable forward_other : json → json → P unit.
Variable phone_number : pystr.
Variable now stamp : pystr.

Local Abbreviation main_credentials := (main_credentials os_name).
Local Abbreviation choice_3 :=
  (choice_3 uni_alnum client account listening forward_other phone_number).
Local Abbreviation choice_2 :=
  (choice_2 uni_alnum py_repr client account listening py_int phone_number now).
Local Abbreviation forward :=
  (start_forwarding uni_alnum client account phone_number listening).
Local Abbreviation main_menu :=
  (main_menu uni_alnum py_repr client account listening py_int forward_other
     phone_number now stamp).

(** The state of [main] once it has logged that it starts. *)
Local Abbreviation started := (λ p : process,
  with_base (add_log INFO (str "Starting Telegram Forwarder") (base p)) p).

(** X19.  With three credentials in the config file, none of them missing,
    [None], empty or zero, [main] uses them as they are: it logs that it
    starts, and then asks nothing, writes nothing and logs nothing more. *)
Theorem main_credentials_from_file p :
  credentials_complete (config_file (base p)) = true →
  main_credentials p
  = (Done (stored (config_file (base p)) k_api_id,
           stored (config_file (base p)) k_api_hash,
           stored (config_file (base p)) k_phone_number),
     with_base (add_log INFO (str "Starting Telegram Forwarder") (base p)) p).
Proof.
  unfold credentials_complete. rewrite !andb_true_iff.
  intros [[[Hro H1] H2] H3].
  destruct (load_credentials_cases (base (started p)))
    as (w' & E & _ & _ & _ & Hw & _).
  destruct Hro as [Hr Ho]. cbn in E, Hw. rewrite Hr, Ho in E, Hw. cbn in E, Hw.
  rewrite (Hw eq_refl) in E. clear Hw.
  unfold Menu.main_credentials. unfold mbind at 1. unfold P_bind at 1.
  unfold info, lift at 1, logger_info, modify. cbv beta iota.
  unfold lift, mbind, P_bind. cbn [base with_base]. rewrite E.
  rewrite H1, H2, H3. cbn. reflexivity.
Qed.

(** X20.  As soon as one credential is missing from the config file, or is
    [None], empty or zero, or the file cannot be read as an object, [main]
    asks for all three; and where the process may write the file, or create
    it when there is none, it saves them over the file: the typed
    credentials are returned, and a chat configuration the file held is
    lost. *)
Theorem main_credentials_asked_again api_id api_hash phone rest p :
  credentials_complete (config_file (base p)) = false →
  stdin p = api_id :: api_hash :: phone :: rest →
  can_write (base p) = true →
  let p' := after main_credentials p in
  result_of main_credentials p = Done (JStr api_id, JStr api_hash, JStr phone)
  ∧ stdin p' = rest
  ∧ (∃ perms, config_file (base p')
              = File perms (Document (JObj (credentials api_id api_hash phone))))
  ∧ field (config_file (base p')) k_source_chat_ids = None
  ∧ field (config_file (base p')) k_destination_chat_id = None.
Proof.
  intros Hinc Hin Hw p'.
  destruct (load_credentials_cases (base (started p)))
    as (w' & E & Hf' & _ & _ & _ & Hd').
  cbn in E, Hf', Hd'.
  assert (Hw' : can_write w' = true).
  { unfold can_write in *. by rewrite Hf', Hd'. }
  assert (∃ pf perms, main_credentials p
            = (Done (JStr api_id, JStr api_hash, JStr phone), pf)
            ∧ stdin pf = rest
            ∧ config_file (base pf)
              = File perms (Document (JObj (credentials api_id api_hash phone))))
    as (pf & perms & Em & Hs & Hc).
  { unfold Menu.main_credentials. unfold mbind at 1. unfold P_bind at 1.
    unfold info, lift at 1, logger_info, modify. cbv beta iota.
    unfold mbind at 1. unfold P_bind at 1.
    unfold lift at 1. cbn [base with_base]. rewrite E.
    unfold credentials_complete in Hinc.
    destruct (can_read (config_file (base p)) && holds_object (config_file (base p)));
      cbn in Hinc |- *; [rewrite Hinc|]; cbn.
    all: unfold_p; cbn; rewrite Hin; cbn.
    all: rewrite save_credentials_cases; cbn; rewrite ?Hf', Hw'.
    all: destruct (bool_decide (os_name ≠ str "nt"));
      [destruct (is_owned (config_file (base p))
                 || negb (holds_file (config_file (base p))))|];
      cbn; eexists _, _; split_and!; reflexivity. }
  unfold p', result_of, after. rewrite Em. simpl.
  destruct (credentials_lookup api_id api_hash phone) as (_ & _ & _ & Hnone).
  split_and!; [done | done | by exists perms | |];
    rewrite Hc; simpl; apply Hnone; by vm_compute.
Qed.

(** X21.  Choice 3 starts nothing without a usable saved configuration:
    when the config file is missing or cannot be read as an object, or when
    the saved source list or destination is absent, [None], empty or zero
    (an empty source list, as saved by choice 2 for a count of 0, included),
    it logs "No saved configuration found" and does nothing else: no
    connection, no request, no change of the file. *)
Theorem choice_3_needs_saved_config p :
  saved_config_usable (config_file (base p)) = false →
  ∃ w, choice_3 p
       = (Done (), with_base (add_log ERROR (str "No saved configuration found") w) p)
     ∧ config_file w = config_file (base p)
     ∧ calls w = calls (base p)
     ∧ source_entities w = source_entities (base p).
Proof.
  intros Hu.
  destruct (load_chat_config_cases (base p)) as (w & E & Hf & Hc & Hs).
  exists w. split; [|done].
  unfold Menu.choice_3. unfold mbind at 1. unfold P_bind at 1. unfold lift at 1.
  rewrite E. unfold saved_config_usable in Hu.
  destruct (can_read (config_file (base p)) && holds_object (config_file (base p)));
    cbn in Hu |- *.
  - apply andb_false_iff in Hu as [->| ->]; cbn; [done|].
    rewrite orb_true_r. done.
  - done.
Qed.

Local Abbreviation read_int := (read_int py_repr py_int).
Local Abbreviation read_sources := (read_sources py_repr py_int).
Local Abbreviation read_chat_config := (read_chat_config py_repr py_int).

(** Reading touches the console only. *)
Lemma read_int_frame prompt p :
  base (after (read_int prompt) p) = base p
  ∧ requests (after (read_int prompt) p) = requests p.
Proof.
  unfold Menu.read_int. unfold_p. destruct (stdin p) as [|line rest]; [done|].
  cbn. by destruct (py_int line).
Qed.

Lemma read_sources_frame count : ∀ i p,
  base (after (read_sources count i) p) = base p
  ∧ requests (after (read_sources count i) p) = requests p.
Proof.
  induction count as [|count IH]; intros i p; [done|].
  cbn [Menu.read_sources]. unfold after, mbind, P_bind.
  destruct (read_int_frame (str "Enter source chat ID #" ++ str_of_int (i + 1)
                            ++ str ": ") p) as [Hb Hr].
  unfold after in Hb, Hr.
  destruct (read_int _ p) as [[z|e] p1]; [|done]. simpl in Hb, Hr.
  destruct (IH (i + 1)%Z p1) as [Hb' Hr']. unfold after in Hb', Hr'.
  destruct (read_sources count (i + 1)%Z p1) as [[ids|e] p2]; simpl in *;
    split; congruence.
Qed.

Lemma read_chat_config_frame p :
  base (after read_chat_config p) = base p
  ∧ requests (after read_chat_config p) = requests p.
Proof.
  unfold Menu.read_chat_config, after, mbind, P_bind.
  destruct (read_int_frame (str "Enter the number of source chats to monitor: ") p)
    as [Hb Hr].
  unfold after in Hb, Hr.
  destruct (read_int _ p) as [[n|e] p1]; [|done]. simpl in Hb, Hr.
  destruct (read_sources_frame (Z.to_nat n) 0 p1) as [Hb1 Hr1].
  unfold after in Hb1, Hr1.
  destruct (read_sources (Z.to_nat n) 0 p1) as [[ids|e] p2]; simpl in *;
    [|split; congruence].
  destruct (read_int_frame (str "Enter the destination chat ID: ") p2) as [Hb2 Hr2].
  unfold after in Hb2, Hr2.
  destruct (read_int _ p2) as [[d|e] p3]; simpl in *; split; congruence.
Qed.

(** X22.  Choice 2 saves what was typed, and only once all of it has been
    read: the chat configuration goes to the config file as it stood,
    before the connection is checked; when a line is not an integer or the
    input ends early, the exception leaves choice 2 with nothing saved and no
    request made. *)
Theorem choice_2_saves_after_reading p :
  (∀ e p1, read_chat_config p = (Fail e, p1) →
     choice_2 p = (Fail e, p1) ∧ base p1 = base p ∧ requests p1 = requests p)
  ∧ (∀ ids dest p1, read_chat_config p = (Done (ids, dest), p1) →
       requests p1 = requests p
       ∧ choice_2 p
         = forward ids dest
             (with_base (run (save_chat_config now ids dest) (base p)) p1)).
Proof.
  destruct (read_chat_config_frame p) as [Hb Hr]. unfold after in Hb, Hr.
  split.
  - intros e p1 E. rewrite E in Hb, Hr. simpl in Hb, Hr.
    unfold Menu.choice_2, mbind, P_bind. by rewrite E.
  - intros ids dest p1 E. rewrite E in Hb, Hr. simpl in Hb, Hr.
    split; [done|].
    unfold Menu.choice_2. unfold mbind at 1. unfold P_bind at 1. rewrite E.
    unfold mbind, P_bind, lift, run. rewrite Hb.
    destruct (save_chat_config_writes_cases now ids dest (base p)) as [w' ->].
    done.
Qed.

Lemma read_sources_spec lines : ∀ ids i p rest,
  mapM py_int lines = Some ids → stdin p = lines ++ rest →
  ∃ p', read_sources (length lines) i p = (Done ids, p') ∧ stdin p' = rest.
Proof.
  induction lines as [|line lines IH]; intros ids i p rest Hm Hin.
  - injection Hm as <-. by exists p.
  - cbn in Hm. destruct (py_int line) as [z|] eqn:Hz; [|done]. cbn in Hm.
    destruct (mapM py_int lines) as [zs|] eqn:Hzs; [|done]. injection Hm as <-.
    cbn [length Menu.read_sources]. unfold Menu.read_int. unfold_p.
    rewrite Hin. cbn. rewrite Hz. cbn.
    match goal with
    | |- context [Menu.read_sources py_repr py_int (length lines) ?j ?p0] =>
        destruct (IH zs j p0 rest eq_refl eq_refl) as (p' & E & Hs)
    end.
    unfold Menu.read_int in E. unfold_p. rewrite E. by exists p'.
Qed.

(** X23.  Choice 2 reads the count, then exactly that many source IDs, then
    the destination, one integer per line, and leaves the rest of the input
    unread; for a count of zero or below it reads no source ID, and the
    source list is empty. *)
Theorem read_chat_config_reads_the_count count_line id_lines dest_line rest n ids dest p :
  stdin p = count_line :: id_lines ++ dest_line :: rest →
  py_int count_line = Some n →
  length id_lines = Z.to_nat n →
  mapM py_int id_lines = Some ids →
  py_int dest_line = Some dest →
  result_of read_chat_config p = Done (ids, dest)
  ∧ stdin (after read_chat_config p) = rest
  ∧ length ids = Z.to_nat n
  ∧ ((n ≤ 0)%Z → ids = []).
Proof.
  intros Hin Hn Hlen Hids Hd.
  assert (Hl : length ids = length id_lines).
  { by apply length_mapM in Hids. }
  assert (∃ pf, read_chat_config p = (Done (ids, dest), pf) ∧ stdin pf = rest)
    as (pf & E & Hs).
  { unfold Menu.read_chat_config. unfold mbind at 1. unfold P_bind at 1.
    unfold Menu.read_int at 1. unfold_p. rewrite Hin. cbn. rewrite Hn. cbn.
    rewrite <- Hlen.
    match goal with
    | |- context [Menu.read_sources py_repr py_int (length id_lines) ?j ?p0] =>
        destruct (read_sources_spec id_lines ids j p0 (dest_line :: rest) Hids eq_refl)
          as (p1 & E1 & Hs1)
    end.
    unfold Menu.read_int in E1. unfold_p. rewrite E1.
    unfold Menu.read_int. unfold_p. rewrite Hs1. cbn. rewrite Hd. cbn.
    by eexists. }
  unfold result_of, after. rewrite E. simpl.
  split_and!; [done | done | lia |].
  intros Hle. destruct ids; [done|]. simpl in Hl. lia.
Qed.

(** X24.  Whatever the choice, and whatever fails while it is carried
    out, [main] ends by checking the connection: if the client is connected
    it asks it to disconnect, as its last request; and only a failure of that
    last request can leave [main] as an exception. *)
Theorem main_always_disconnects choice rest p :
  stdin p = choice :: rest →
  ∃ h, requests (after main_menu p)
       = h ++ (if is_connected account h then [Disconnect] else [])
     ∧ result_of main_menu p
       = if is_connected account h then disconnect account h else Done ().
Proof.
  intros Hin. unfold Menu.main_menu, result_of, after.
  unfold print, input, mbind, P_bind. cbn. rewrite Hin.
  unfold finally, catch_all.
  match goal with
  | |- context [main_try ?u ?r ?c ?a ?l ?i ?f ?ph ?n ?s choice ?p0] =>
      destruct (main_try u r c a l i f ph n s choice p0) as [[[]|e] p1]
  end.
  - exists (requests p1). unfold main_finally. unfold_p. cbn.
    destruct (is_connected account (requests p1)); cbn; [|by rewrite app_nil_r].
    destruct (disconnect account (requests p1)) as [[]|e]; done.
  - unfold error at 1. unfold lift, logger_error, modify. cbn.
    exists (requests p1). unfold main_finally. unfold_p. cbn.
    destruct (is_connected account (requests p1)); cbn; [|by rewrite app_nil_r].
    destruct (disconnect account (requests p1)) as [[]|e']; done.
Qed.

End MenuProperties.

Lemma main_credentials_from_file_witness :
  let p := session (on_disk (Document (JObj credentials_only))) [] in
  main_credentials posix p
  = (Done (JStr (str "1"), JStr (str "h"), JStr (str "+100")),
     with_base (add_log INFO (str "Starting Telegram Forwarder") (base p)) p).
Proof.
  intros p.
  exact (main_credentials_from_file posix p eq_refl).
Defined.

Lemma main_credentials_asked_again_witness :
  let p := session (on_disk (Document (JObj chats_only)))
             [str "1"; str "h"; str "+100"; str "3"] in
  let p' := after (main_credentials posix) p in
  field (config_file (base p)) k_source_chat_ids = Some (JList [JInt 11; JInt 22])
  ∧ result_of (main_credentials posix) p
    = Done (JStr (str "1"), JStr (str "h"), JStr (str "+100"))
  ∧ stdin p' = [str "3"]
  ∧ field (config_file (base p')) k_source_chat_ids = None.
Proof.
  intros p p'.
  destruct (main_credentials_asked_again posix (str "1") (str "h") (str "+100")
              [str "3"] p eq_refl eq_refl eq_refl) as (H1 & H2 & _ & H3 & _).
  split_and!; [reflexivity | exact H1 | exact H2 | exact H3].
Defined.

Lemma choice_3_needs_saved_config_witness :
  let p := session no_sources [] in
  stored (config_file no_sources) k_source_chat_ids = JList []
  ∧ stored (config_file no_sources) k_destination_chat_id = JInt 99
  ∧ ∃ w, choice_3 ascii_only steady_client ready_account no_message no_other phone p
         = (Done (),
            with_base (add_log ERROR (str "No saved configuration found") w) p).
Proof.
  intros p. split; [reflexivity|]. split; [reflexivity|].
  destruct (choice_3_needs_saved_config ascii_only steady_client ready_account
              no_message no_other phone p eq_refl) as (w & E & _).
  by exists w.
Defined.

Lemma read_chat_config_reads_the_count_witness :
  let p := session world0 [str "2"; str "-1001"; str "-1002"; str "77"; str "x"] in
  result_of (read_chat_config quoted decimal) p = Done ([-1001; -1002]%Z, 77%Z)
  ∧ stdin (after (read_chat_config quoted decimal) p) = [str "x"].
Proof.
  intros p.
  destruct (read_chat_config_reads_the_count quoted decimal (str "2")
              [str "-1001"; str "-1002"] (str "77") [str "x"] 2
              [-1001; -1002]%Z 77%Z p eq_refl eq_refl eq_refl eq_refl eq_refl)
    as (H1 & H2 & _).
  split; [exact H1 | exact H2].
Defined.

Lemma main_always_disconnects_witness :
  let p := session world0 [str "9"] in
  ∃ h, requests (after (main_menu ascii_only quoted steady_client ready_account
                          no_message decimal no_other phone stamp
                          (str "20240601_120000")) p)
       = h ++ (if is_connected ready_account h then [Disconnect] else []).
Proof.
  intros p.
  destruct (main_always_disconnects ascii_only quoted steady_client ready_account
              no_message decimal no_other phone stamp (str "20240601_120000")
              (str "9") [] p eq_refl)
    as (h & H & _).
  by exists h.
Defined.
